(** * LiberTEM I/O core: file sets, partitions and the PickUDF merge

  A shallow embedding of

  - [libertem/io/dataset/base/fileset.py]   ([FileSet]),
  - [libertem/io/dataset/base/partition.py] ([Partition], [BasePartition]),
  - [libertem/udf/raw.py]                   ([PickUDF]),

  together with the properties the specification states about them.
  Python integers are [Z]; tuples and lists are [list]; exceptions are an
  explicit error type threaded through a small result monad. *)

From Stdlib Require Import String.
From Stdlib Require Import ZArith List Bool Lia Permutation Sorted.
From Stdlib Require Import Floats.SpecFloat.
Import ListNotations.
Open Scope Z_scope.

(** ** Exceptions and the result monad *)

Module Py.

(** The reasons for which the embedded code raises [ValueError]. *)
Inductive value_error : Type :=
| NavDimsShouldBeFlat
| InvalidNumberOfFrames (num_frames : Z)
| FilesRejected.

Inductive exn : Type :=
| AssertionError
| ValueError (why : value_error)
| ZeroDivisionError
| IndexError
| OverflowError
| UFuncTypeError
| IOError.

Inductive result (A : Type) : Type :=
| Ok (a : A)
| Raise (e : exn).

Arguments Ok {A} a.
Arguments Raise {A} e.

Definition bind {A B : Type} (r : result A) (k : A -> result B) : result B :=
  match r with
  | Ok a => k a
  | Raise e => Raise e
  end.

Definition is_ok {A : Type} (r : result A) : bool :=
  match r with Ok _ => true | Raise _ => false end.

End Py.

Import Py.

Notation "x <- c ;; k" := (bind c (fun x => k))
  (at level 61, c at next level, right associativity).

(** ** Geometry: [Shape] and [Slice] ([libertem.common]) *)

(** Modelled from the spec: [libertem.common.Shape] is not part of the
  sources at hand.  A shape is an ordered sequence of extents split into a
  leading navigation group and a trailing signal group of [sig_dims] axes;
  [size] is the product of the extents. *)
Record Shape : Type := mkShape {
  shape_dims : list Z;
  shape_sig_dims : nat
}.

Definition prod_Z (l : list Z) : Z := fold_right Z.mul 1 l.

Definition nav_dims_count (s : Shape) : nat :=
  (length (shape_dims s) - shape_sig_dims s)%nat.

(** [shape.nav] and [shape.sig] as tuples *)
Definition shape_nav (s : Shape) : list Z := firstn (nav_dims_count s) (shape_dims s).
Definition shape_sig (s : Shape) : list Z := skipn (nav_dims_count s) (shape_dims s).

(** [shape.nav.dims], [shape.sig.dims], [shape.nav.size] *)
Definition nav_dims (s : Shape) : nat := length (shape_nav s).
Definition sig_dims (s : Shape) : nat := length (shape_sig s).
Definition nav_size (s : Shape) : Z := prod_Z (shape_nav s).

(** [shape.flatten_nav()] *)
Definition flatten_nav (s : Shape) : Shape :=
  mkShape (nav_size s :: shape_sig s) (sig_dims s).

(** Modelled from the spec: [libertem.common.Slice], an origin together with
  a shape. *)
Record Slice : Type := mkSlice {
  origin : list Z;
  shape : Shape
}.

(** A slice is well formed when it has one origin coordinate per axis. *)
Definition Slice_wf (sl : Slice) : Prop :=
  length (origin sl) = length (shape_dims (shape sl)).

(** ** [Partition.make_slices] *)

(** One item yielded by the generator: [(part_slice, start, stop)]. *)
Definition item : Type := (Slice * Z * Z)%type.

Definition item_start (i : item) : Z := snd (fst i).
Definition item_stop (i : item) : Z := snd i.
Definition item_slice (i : item) : Slice := fst (fst i).

(** The slice built in the loop body for the clipped range [start, stop). *)
Definition part_slice (shape : Shape) (start stop : Z) : Slice :=
  mkSlice (start :: repeat 0 (sig_dims shape))
          (mkShape ((stop - start) :: shape_sig shape) (sig_dims shape)).

(** The [for (start, stop) in zip(c0, c1)] loop.  [c0] and [c1] are the
    current values of the two [itertools.count] iterators; both advance by
    [f_per_part].  The counters are unbounded, so the loop is driven by
    fuel and answers [None] when the fuel runs out before the [break]. *)
Fixpoint make_slices_loop (fuel : nat) (shape : Shape) (num_frames f_per_part c0 c1 : Z)
  : option (list item) :=
  match fuel with
  | O => None
  | S fuel' =>
      if c0 >=? num_frames then Some []
      else
        let start := c0 in
        let stop := Z.min c1 num_frames in
        match make_slices_loop fuel' shape num_frames f_per_part
                   (c0 + f_per_part) (c1 + f_per_part) with
        | Some rest => Some ((part_slice shape start stop, start, stop) :: rest)
        | None => None
        end
  end.

Definition f_per_part (num_frames num_partitions : Z) : Z :=
  Z.max 1 (num_frames / num_partitions).

(** Fuel-indexed generator.  Integer division by zero raises. *)
Definition make_slices_fuel (fuel : nat) (shape : Shape) (num_partitions : Z)
  : option (result (list item)) :=
  if num_partitions =? 0 then Some (Raise ZeroDivisionError)
  else
    let num_frames := nav_size shape in
    let f := f_per_part num_frames num_partitions in
    option_map Ok (make_slices_loop fuel shape num_frames f 0 f).

(** The generator run to exhaustion; [S num_frames] iterations always
    reach the [break] (lemma [make_slices_loop_spec]). *)
Definition make_slices (shape : Shape) (num_partitions : Z)
  : option (result (list item)) :=
  make_slices_fuel (S (Z.to_nat (nav_size shape))) shape num_partitions.

(** The frame ranges of a run. *)
Definition ranges (l : list item) : list (Z * Z) :=
  map (fun i => (item_start i, item_stop i)) l.

(** [tiles_from lo hi rs]: the ranges [rs] are non-empty, ascending,
    pairwise adjacent, start at [lo] and end at [hi]; hence they are
    disjoint and their union is exactly [[lo, hi)]. *)
Fixpoint tiles_from (lo hi : Z) (rs : list (Z * Z)) : Prop :=
  match rs with
  | [] => lo = hi
  | (a, b) :: rest => a = lo /\ a < b /\ tiles_from b hi rest
  end.

(** All ranges have length [f] except possibly the last one, which has
    length at most [f]. *)
Fixpoint only_last_smaller (f : Z) (rs : list (Z * Z)) : Prop :=
  match rs with
  | [] => True
  | [(a, b)] => b - a <= f
  | (a, b) :: rest => b - a = f /\ only_last_smaller f rest
  end.


(** ** File descriptors ([.file.File]) *)

(** Modelled from the spec: the [File] class is not part of the sources at
    hand.  A descriptor carries its path, the global frame range
    [[start_idx, end_idx)] it holds, its header size, and whether its handle
    is currently open. *)
Record File : Type := mkFile {
  path : String.string;
  start_idx : Z;
  end_idx : Z;
  file_header_bytes : Z;
  is_open : bool
}.

(** The descriptor invariant of the data model: a file holds at least one
    frame. *)
Definition File_wf (f : File) : Prop := start_idx f < end_idx f.

(** What does not change when a file is opened or closed. *)
Definition descr (f : File) : String.string * Z * Z * Z :=
  (path f, start_idx f, end_idx f, file_header_bytes f).

(** Modelled from the spec: [File.open()] acquires the handle and can fail
    with an I/O error (a missing file); [openable] says which paths the file
    system lets us open.  [File.close()] releases the handle. *)
Definition File_open (openable : String.string -> bool) (f : File) : result File :=
  if openable (path f)
  then Ok (mkFile (path f) (start_idx f) (end_idx f) (file_header_bytes f) true)
  else Raise IOError.

Definition File_close (f : File) : File :=
  mkFile (path f) (start_idx f) (end_idx f) (file_header_bytes f) false.

(** ** The file index ([.utils.FileTree]) *)

(** Modelled from the spec: [FileTree] is not part of the sources at hand.
    The spec asks for an ordered structure over the descriptors (a sorted
    array suffices) with a lower-bound search.  A node records the frame
    range of a file and [idx], the position of that file in the list the
    index was made from; the [File] object a node refers to is the very
    object stored at that position, so it is not duplicated here. *)
Record FileTreeNode : Type := mkNode {
  low : Z;
  high : Z;
  idx : nat
}.

Definition FileTree : Type := list FileTreeNode.

(** [enumerate(files)], keeping what a node needs *)
Fixpoint enumerate_from (i : nat) (files : list File) : list FileTreeNode :=
  match files with
  | [] => []
  | f :: rest => mkNode (start_idx f) (end_idx f) i :: enumerate_from (S i) rest
  end.

Fixpoint insert_node (x : FileTreeNode) (t : list FileTreeNode) : list FileTreeNode :=
  match t with
  | [] => [x]
  | y :: rest => if low x <=? low y then x :: y :: rest else y :: insert_node x rest
  end.

(** Ordering the nodes by first frame *)
Definition sort_nodes (t : list FileTreeNode) : list FileTreeNode :=
  fold_right insert_node [] t.

(** Gap-free and non-overlapping: each range ends where the next begins. *)
Fixpoint chained (t : list FileTreeNode) : bool :=
  match t with
  | [] => true
  | x :: rest =>
      match rest with
      | [] => true
      | y :: _ => (high x =? low y) && chained rest
      end
  end.

(** Modelled from the spec: [FileTree.make(files)] yields no index ([None])
    when there are no files or when the files cannot be ordered into a
    gap-free, non-overlapping cover of a frame range. *)
Definition FileTree_make (files : list File) : option FileTree :=
  match files with
  | [] => None
  | _ :: _ =>
      let t := sort_nodes (enumerate_from 0 files) in
      if chained t then Some t else None
  end.

Definition contains_frame (frame : Z) (x : FileTreeNode) : bool :=
  (low x <=? frame) && (frame <? high x).

Definition starts_at_or_after (frame : Z) (x : FileTreeNode) : bool :=
  frame <=? low x.

(** Modelled from the spec: [search_start(frame)] returns the position of
    the descriptor whose range contains [frame], or of the first descriptor
    starting at or after [frame] if none contains it (lower-bound semantics;
    the number of files when there is no such descriptor either). *)
Definition search_start (t : FileTree) (frame : Z) : nat :=
  match find (contains_frame frame) t with
  | Some x => idx x
  | None =>
      match find (starts_at_or_after frame) t with
      | Some x => idx x
      | None => length t
      end
  end.

(** ** [FileSet] *)

Record FileSet : Type := mkFileSet {
  _files : list File;
  _tree : FileTree;
  _files_open : bool;
  _frame_header_bytes : Z;
  _frame_footer_bytes : Z
}.

(** [FileSet.__init__] *)
Definition FileSet_init (files : list File)
           (frame_header_bytes frame_footer_bytes : Z) : result FileSet :=
  if (0 <? length files)%nat then
    match FileTree_make files with
    | None => Raise (ValueError FilesRejected)
    | Some tree => Ok (mkFileSet files tree false frame_header_bytes frame_footer_bytes)
    end
  else Raise AssertionError.

(** [files_from]: the generator over [self._files[idx]] for [idx] in
    [range(lower_bound, len(self._files))], as the list it runs through. *)
Definition files_from (fs : FileSet) (start : Z) : list File :=
  let lower_bound := search_start (_tree fs) start in
  skipn lower_bound (_files fs).

(** The loop of [_get_files_for_range]: [files] accumulates the descriptors
    seen so far, and the first one starting after [stop] breaks the loop. *)
Fixpoint collect_until (stop : Z) (it : list File) (files : list File) : list File :=
  match it with
  | [] => files
  | f :: it' =>
      if start_idx f >? stop then files
      else collect_until stop it' (files ++ [f])
  end.

Definition _get_files_for_range (fs : FileSet) (start stop : Z) : result (list File) :=
  let files := collect_until stop (files_from fs start) [] in
  if (0 <? length files)%nat then Ok files else Raise AssertionError.

(** [_clone] builds a new instance of the same class. *)
Definition _clone (files : list File)
           (frame_header_bytes frame_footer_bytes : Z) : result FileSet :=
  FileSet_init files frame_header_bytes frame_footer_bytes.

Definition get_for_range (fs : FileSet) (start stop : Z) : result FileSet :=
  files <- _get_files_for_range fs start stop ;;
  _clone files (_frame_header_bytes fs) (_frame_footer_bytes fs).

(** The integers an [np.int64] array can hold. *)
Definition in_int64 (x : Z) : bool := (- 2 ^ 63 <=? x) && (x <? 2 ^ 63).

(** [get_as_arr]: one row [(start_idx, end_idx, idx, file_header_bytes)]
    per file, stored in an array of [np.int64]; the first row with an
    integer that does not fit raises [OverflowError]. *)
Fixpoint rows_from (i : Z) (files : list File) : result (list (Z * Z * Z * Z)) :=
  match files with
  | [] => Ok []
  | f :: rest =>
      if in_int64 (start_idx f) && in_int64 (end_idx f)
         && in_int64 i && in_int64 (file_header_bytes f)
      then rows <- rows_from (i + 1) rest ;;
           Ok ((start_idx f, end_idx f, i, file_header_bytes f) :: rows)
      else Raise OverflowError
  end.

Definition get_as_arr (fs : FileSet) : result (list (Z * Z * Z * Z)) :=
  rows_from 0 (_files fs).

(** *** Scoped opening: [__enter__], [__exit__] and the [with] statement *)

(** [for f in self._files: f.open()]: the files opened before a failure
    stay open, the failing one and those after it are untouched. *)
Fixpoint open_each (openable : String.string -> bool) (files : list File)
  : result unit * list File :=
  match files with
  | [] => (Ok tt, [])
  | f :: rest =>
      match File_open openable f with
      | Ok f' =>
          let (r, rest') := open_each openable rest in (r, f' :: rest')
      | Raise e => (Raise e, f :: rest)
      end
  end.

Definition with_files (fs : FileSet) (files : list File) (opened : bool) : FileSet :=
  mkFileSet files (_tree fs) opened (_frame_header_bytes fs) (_frame_footer_bytes fs).

(** [__enter__] returns the outcome together with the file set as the call
    leaves it. *)
Definition FileSet_enter (openable : String.string -> bool) (fs : FileSet)
  : result unit * FileSet :=
  let (r, files) := open_each openable (_files fs) in
  match r with
  | Ok _ => (Ok tt, with_files fs files true)
  | Raise e => (Raise e, with_files fs files (_files_open fs))
  end.

(** [__exit__] ignores the exception information and returns [None],
    so a pending exception keeps propagating. *)
Definition FileSet_exit (fs : FileSet) (exc : option exn) : FileSet :=
  with_files fs (map File_close (_files fs)) false.

Definition exc_info {A : Type} (r : result A) : option exn :=
  match r with Ok _ => None | Raise e => Some e end.

(** [with fs: body]: the body runs on the opened set and may end normally
    or raise; [__exit__] runs in both cases, and is not reached when
    [__enter__] itself raises. *)
Definition with_fileset {A : Type} (openable : String.string -> bool)
           (fs : FileSet) (body : FileSet -> result A * FileSet)
  : result A * FileSet :=
  match FileSet_enter openable fs with
  | (Raise e, fs1) => (Raise e, fs1)
  | (Ok _, fs1) =>
      let (r, fs2) := body fs1 in
      (r, FileSet_exit fs2 (exc_info r))
  end.

(** ** Element types and arrays *)

(** Integer element types: signedness and size in bytes.  Floating-point
    element types are not modelled. *)
Record dtype : Type := mkDType {
  dtype_signed : bool;
  itemsize : Z
}.

Definition modulus (d : dtype) : Z := 2 ^ (8 * itemsize d).

(** Storing an integer in an array of type [d] wraps it around. *)
Definition wrap (d : dtype) (x : Z) : Z :=
  if dtype_signed d
  then (x + modulus d / 2) mod modulus d - modulus d / 2
  else x mod modulus d.

Definition representable (d : dtype) (x : Z) : Prop :=
  if dtype_signed d
  then - (modulus d / 2) <= x < modulus d - modulus d / 2
  else 0 <= x < modulus d.

(** A numpy array: element type, shape, and the elements in row-major
    order. *)
Record ndarray : Type := mkArray {
  arr_dtype : dtype;
  arr_shape : list Z;
  arr_data : list Z
}.


(** [np.zeros(shape, dtype)] *)
Definition np_zeros (shape : list Z) (d : dtype) : ndarray :=
  mkArray d shape (repeat 0 (Z.to_nat (prod_Z shape))).

Fixpoint list_Z_eqb (a b : list Z) : bool :=
  match a, b with
  | [], [] => true
  | x :: a', y :: b' => (x =? y) && list_Z_eqb a' b'
  | _, _ => false
  end.

Fixpoint add_elementwise (d : dtype) (xs ys : list Z) : list Z :=
  match xs, ys with
  | x :: xs', y :: ys' => wrap d (x + y) :: add_elementwise d xs' ys'
  | _, _ => []
  end.

(** Whether numpy lets the sum of an in-place addition into [dest] be
    stored: the sum has the common type of both operands and is cast to the
    element type of [dest] under the rule ['same_kind'].  An unsigned sum
    goes into every integer type, a signed sum into signed types only, and
    the common type of a signed type and an unsigned type of eight bytes is
    [float64], which goes into no integer type. *)
Definition inplace_add_allowed (dest src : dtype) : bool :=
  if dtype_signed dest
  then dtype_signed src || (itemsize src <? 8)
  else negb (dtype_signed src).

(** [dest[:] += src] for two arrays of the same shape: when the cast is
    allowed every element of [dest] receives the sum, stored in the element
    type of [dest]; otherwise the addition raises the [TypeError] of the
    ufunc.  Operands of different shapes (numpy broadcasting) are outside the
    model: [None]. *)
Definition iadd_all (dest src : ndarray) : option (result ndarray) :=
  if list_Z_eqb (arr_shape dest) (arr_shape src)
  then Some (if inplace_add_allowed (arr_dtype dest) (arr_dtype src)
             then Ok (mkArray (arr_dtype dest) (arr_shape dest)
                        (add_elementwise (arr_dtype dest)
                                         (arr_data dest) (arr_data src)))
             else Raise UFuncTypeError)
  else None.

(** ** [PickUDF.merge] *)

(** The result buffers of [PickUDF]: the dictionary has the single key
    ['intensity']. *)
Record PickResults : Type := mkPickResults {
  intensity : ndarray
}.

(** [merge(dest, src)]: [dest['intensity'][:] += src['intensity']] *)
Definition merge (dest src : PickResults) : option (result PickResults) :=
  match iadd_all (intensity dest) (intensity src) with
  | Some (Ok a) => Some (Ok (mkPickResults a))
  | Some (Raise e) => Some (Raise e)
  | None => None
  end.

(** *** Floating-point buffers *)

(** An IEEE 754 binary format: precision and maximal exponent. *)
Record float_format : Type := mkFormat {
  fprec : Z;
  femax : Z
}.

Definition float64 : float_format := mkFormat 53 1024.









(** ** Tiling schemes and tiles ([.tiling]) *)

(** Modelled from the spec: [TilingScheme] is not part of the sources at
    hand.  It has a depth (frames per tile), an ordered sequence of signal
    sub-slices, each an origin and a shape in signal space, and the shape of
    the dataset. *)
Record TilingScheme : Type := mkTilingScheme {
  depth : Z;
  slices_array : list (list Z * list Z);
  dataset_shape : Shape
}.

(** Modelled from the spec: [TilingScheme.make_for_shape] as
    [get_macrotile] uses it, for a tile shape that spans the whole signal:
    depth is the tile shape's first extent, and the single signal sub-slice
    is the whole signal shape. *)
Definition make_for_shape (tileshape dataset_shape : Shape) : TilingScheme :=
  mkTilingScheme (hd 1 (shape_dims tileshape))
                 [(repeat 0 (sig_dims tileshape), shape_sig tileshape)]
                 dataset_shape.

(** Modelled from the spec: a [DataTile] is a buffer together with its tile
    slice and the index of its signal sub-slice in the scheme. *)
Record DataTile : Type := mkDataTile {
  tile_data : ndarray;
  tile_slice : Slice;
  scheme_idx : Z
}.

(** A region of interest: a boolean mask over the flattened navigation
    axis, or [None]. *)
Definition ROI : Type := option (list bool).

Definition roi_selects (roi : ROI) (frame : Z) : bool :=
  match roi with
  | None => true
  | Some mask => (0 <=? frame) && nth (Z.to_nat frame) mask false
  end.

(** ** The I/O layer as an interface *)

(** The read-range compiler [default_get_read_ranges] and the I/O backend
    ([LocalFSMMapBackend.get_tiles]) are not part of the sources at hand;
    the code under study only passes arguments to them.  They are taken as
    an interface: any pure compiler and any backend.  The tile generator is
    represented by the outcome of consuming it: an exception, or the
    sequence of tiles it yields. *)
Class IOLayer : Type := {
  ReadRanges : Type;
  default_get_read_ranges :
    forall (start_at_frame stop_before_frame : Z) (roi : ROI) (depth : Z)
           (slices_arr : list (list Z * list Z))
           (fileset_arr : list (Z * Z * Z * Z))
           (sig_shape : list Z) (bpp : Z)
           (frame_header_bytes frame_footer_bytes : Z), ReadRanges;
  backend_get_tiles :
    forall (tiling_scheme : TilingScheme) (fileset : FileSet)
           (read_ranges : ReadRanges) (roi : ROI)
           (native_dtype read_dtype : dtype), result (list DataTile)
}.

(** [FileSet.get_read_ranges] *)
Definition get_read_ranges `{io : IOLayer} (fs : FileSet)
           (start_at_frame stop_before_frame : Z) (d : dtype)
           (tiling_scheme : TilingScheme) (roi : ROI) : result ReadRanges :=
  fileset_arr <- get_as_arr fs ;;
  Ok (default_get_read_ranges
        start_at_frame stop_before_frame roi
        (depth tiling_scheme) (slices_array tiling_scheme) fileset_arr
        (shape_sig (dataset_shape tiling_scheme)) (itemsize d)
        (_frame_header_bytes fs) (_frame_footer_bytes fs)).

(** ** [Partition] and [BasePartition] *)

Record DataSetMeta : Type := mkMeta {
  meta_shape : Shape;
  raw_dtype : dtype
}.

Record Partition : Type := mkPartition {
  meta : DataSetMeta;
  slice : Slice
}.

(** [Partition.__init__] *)
Definition Partition_init (meta : DataSetMeta) (partition_slice : Slice)
  : result Partition :=
  if (nav_dims (shape partition_slice) =? 1)%nat
  then Ok (mkPartition meta partition_slice)
  else Raise (ValueError NavDimsShouldBeFlat).

(** The [shape] property: [self.slice.shape.flatten_nav()] *)
Definition Partition_shape (p : Partition) : Shape :=
  flatten_nav (shape (slice p)).

Record BasePartition : Type := mkBasePartition {
  base : Partition;
  _fileset : FileSet;
  _start_frame : Z;
  _num_frames : Z
}.

(** [BasePartition.__init__]: the statements in the order of the source. *)
Definition BasePartition_init (meta : DataSetMeta) (partition_slice : Slice)
           (fileset : FileSet) (start_frame num_frames : Z)
  : result BasePartition :=
  p <- Partition_init meta partition_slice ;;
  fs <- get_for_range fileset start_frame (start_frame + num_frames - 1) ;;
  if num_frames <=? 0
  then Raise (ValueError (InvalidNumberOfFrames num_frames))
  else Ok (mkBasePartition p fs start_frame num_frames).

(** [_get_read_ranges] *)
Definition _get_read_ranges `{io : IOLayer} (p : BasePartition)
           (tiling_scheme : TilingScheme) (roi : ROI) : result ReadRanges :=
  get_read_ranges (_fileset p)
    (_start_frame p) (_start_frame p + _num_frames p)
    (raw_dtype (meta (base p))) tiling_scheme roi.

(** [get_tiles]; [validate_tiling_scheme] accepts every scheme. *)
Definition get_tiles `{io : IOLayer} (p : BasePartition)
           (tiling_scheme : TilingScheme) (dest_dtype : dtype) (roi : ROI)
  : result (list DataTile) :=
  read_ranges <- _get_read_ranges p tiling_scheme roi ;;
  backend_get_tiles tiling_scheme (_fileset p) read_ranges roi
                    (raw_dtype (meta (base p))) dest_dtype.

(** The tile built in the [except StopIteration] branch of
    [get_macrotile]. *)
Definition empty_macrotile (p : BasePartition) (dest_dtype : dtype)
  : result DataTile :=
  match origin (slice (base p)) with
  | [] => Raise IndexError
  | o :: _ =>
      let tile_slice :=
        mkSlice [o; 0; 0]
                (mkShape (0 :: shape_sig (shape (slice (base p)))) 2) in
      Ok (mkDataTile (np_zeros (shape_dims (shape tile_slice)) dest_dtype)
                     tile_slice 0)
  end.

(** [get_macrotile]: [next] on the tile generator gives its first tile;
    an exhausted generator raises [StopIteration], which is caught. *)
Definition get_macrotile `{io : IOLayer} (p : BasePartition)
           (dest_dtype : dtype) (roi : ROI) : result DataTile :=
  let tiling_scheme :=
    make_for_shape (Partition_shape (base p)) (meta_shape (meta (base p))) in
  match get_tiles p tiling_scheme dest_dtype roi with
  | Raise e => Raise e
  | Ok (tile :: _) => Ok tile
  | Ok [] => empty_macrotile p dest_dtype
  end.

(** ** A reference I/O layer *)

(** Modelled from the spec: the read-range compiler and the backend, which
    are not part of the sources at hand, as section 4.3 and 4.4 of the
    specification describe them.  Frames of the requested range that the
    ROI excludes are skipped; the surviving frames are grouped by [depth];
    every group and every signal sub-slice give one tile, whose slice lives
    in the ROI-compressed navigation axis; every frame of a group gives one
    read instruction. *)
Record ReadInstr : Type := mkReadInstr {
  rr_file : Z;
  rr_offset : Z;
  rr_length : Z;
  rr_dest : Z
}.

Record TileRanges : Type := mkTileRanges {
  tr_origin : list Z;
  tr_shape : list Z;
  tr_scheme_idx : Z;
  tr_reads : list ReadInstr
}.

Definition frames_between (start stop : Z) : list Z :=
  map (fun i => start + Z.of_nat i) (seq 0 (Z.to_nat (stop - start))).

Definition surviving_frames (start stop : Z) (roi : ROI) : list Z :=
  filter (roi_selects roi) (frames_between start stop).

(** The coordinate of a frame in the compressed navigation axis: how many
    selected frames precede it. *)
Definition compressed_index (roi : ROI) (frame : Z) : Z :=
  Z.of_nat (length (surviving_frames 0 frame roi)).

Fixpoint groups_of (fuel : nat) (depth : nat) (l : list Z) : list (list Z) :=
  match fuel with
  | O => []
  | S fuel' =>
      match l with
      | [] => []
      | _ :: _ => firstn depth l :: groups_of fuel' depth (skipn depth l)
      end
  end.

Definition flat_index (extents idx : list Z) : Z :=
  fold_left (fun acc di => acc * fst di + snd di) (combine extents idx) 0.

Definition read_of_frame (fileset_arr : list (Z * Z * Z * Z))
           (sig_shape so ss : list Z) (bpp fhb ffb : Z) (j frame : Z)
  : list ReadInstr :=
  match find (fun row => match row with
                         | (s, e, _, _) => (s <=? frame) && (frame <? e)
                         end) fileset_arr with
  | Some (s, _, i, header) =>
      [mkReadInstr i
         (header + (frame - s) * (fhb + prod_Z sig_shape * bpp + ffb)
          + fhb + flat_index sig_shape so * bpp)
         (prod_Z ss * bpp)
         (j * prod_Z ss * bpp)]
  | None => []
  end.

Fixpoint enumerate_Z {A : Type} (i : Z) (l : list A) : list (Z * A) :=
  match l with
  | [] => []
  | x :: rest => (i, x) :: enumerate_Z (i + 1) rest
  end.

Definition compile_read_ranges
           (start_at_frame stop_before_frame : Z) (roi : ROI) (depth : Z)
           (slices_arr : list (list Z * list Z))
           (fileset_arr : list (Z * Z * Z * Z))
           (sig_shape : list Z) (bpp fhb ffb : Z) : list TileRanges :=
  let frames := surviving_frames start_at_frame stop_before_frame roi in
  flat_map
    (fun group =>
       map (fun islice =>
              match islice with
              | (sidx, (so, ss)) =>
                  mkTileRanges
                    (compressed_index roi (hd 0 group) :: so)
                    (Z.of_nat (length group) :: ss)
                    sidx
                    (flat_map
                       (fun jf => read_of_frame fileset_arr sig_shape so ss
                                                bpp fhb ffb (fst jf) (snd jf))
                       (enumerate_Z 0 group))
              end)
           (enumerate_Z 0 slices_arr))
    (groups_of (length frames) (Nat.max 1 (Z.to_nat depth)) frames).

(** The backend executes the read instructions of each tile; [read] stands
    for the samples a read instruction delivers from the open files. *)
Definition tiles_of_ranges (read : ReadInstr -> list Z) (read_dtype : dtype)
           (rr : list TileRanges) : list DataTile :=
  map (fun t =>
         mkDataTile
           (mkArray read_dtype (tr_shape t) (flat_map read (tr_reads t)))
           (mkSlice (tr_origin t)
                    (mkShape (tr_shape t) (length (tr_shape t) - 1)))
           (tr_scheme_idx t))
      rr.

#[local] Instance reference_io (read : ReadInstr -> list Z) : IOLayer := {|
  ReadRanges := list TileRanges;
  default_get_read_ranges := compile_read_ranges;
  backend_get_tiles := fun _ _ rr _ _ read_dtype =>
                         Ok (tiles_of_ranges read read_dtype rr)
|}.

(** ** Predicates used to state the properties *)

(** Each file ends where the next one begins. *)
Fixpoint contiguous (files : list File) : Prop :=
  match files with
  | [] => True
  | f :: rest =>
      match rest with
      | [] => True
      | g :: _ => end_idx f = start_idx g /\ contiguous rest
      end
  end.

(** The files can be ordered into a gap-free, non-overlapping cover. *)
Definition coverable (files : list File) : Prop :=
  exists l, Permutation l files /\ contiguous l.

(** File [f] holds the frame [x]. *)
Definition holds_frame (f : File) (x : Z) : Prop :=
  start_idx f <= x < end_idx f.

(** File [f] has at least one frame in the closed interval [[a, b]]. *)
Definition overlaps (a b : Z) (f : File) : Prop :=
  exists x, holds_frame f x /\ a <= x <= b.

Definition overlapsb (a b : Z) (f : File) : bool :=
  (a <? end_idx f) && (start_idx f <=? b).

(** File [f] has at least one frame in the half-open range
    [[start, start + num)]. *)
Definition has_frame_in (start num : Z) (f : File) : Prop :=
  exists x, holds_frame f x /\ start <= x < start + num.

(** The frames covered by a non-empty contiguous list are those from the
    first [start_idx] up to the last [end_idx]. *)
Definition first_frame (files : list File) : Z :=
  match files with
  | [] => 0
  | f :: _ => start_idx f
  end.

Definition end_frame (files : list File) : Z :=
  match files with
  | [] => 0
  | f :: _ => end_idx (last files f)
  end.

Definition all_open (files : list File) : Prop :=
  Forall (fun f => is_open f = true) files.

Definition all_closed (files : list File) : Prop :=
  Forall (fun f => is_open f = false) files.

(** The zero-frame tile of a partition: one navigation axis of extent 0,
    the signal of the partition, the origin at the first frame of the
    partition slice, one origin coordinate per axis, and no samples. *)
Definition zero_frame_tile_of (p : BasePartition) (t : DataTile) : Prop :=
  shape_nav (shape (tile_slice t)) = [0]
  /\ shape_sig (shape (tile_slice t)) = shape_sig (shape (slice (base p)))
  /\ origin (tile_slice t)
     = hd 0 (origin (slice (base p)))
       :: repeat 0 (sig_dims (shape (slice (base p))))
  /\ Slice_wf (tile_slice t)
  /\ arr_data (tile_data t) = [].

(** The ROI excludes every frame of the partition. *)
Definition roi_excludes_partition (roi : ROI) (p : BasePartition) : Prop :=
  forall x, _start_frame p <= x < _start_frame p + _num_frames p ->
            roi_selects roi x = false.

(** *** Auxiliary views of the file index *)

(** The node of a file at a position. *)
Definition node_of (p : nat * File) : FileTreeNode :=
  mkNode (start_idx (snd p)) (end_idx (snd p)) (fst p).

(** The order of the index: by first frame. *)
Definition le_low (x y : FileTreeNode) : Prop := low x <= low y.

(** The two searches of [search_start], before the default. *)
Definition lookup (t : FileTree) (frame : Z) : option FileTreeNode :=
  match find (contains_frame frame) t with
  | Some x => Some x
  | None => find (starts_at_or_after frame) t
  end.

(** ** Sample data *)

Definition uint16 : dtype := mkDType false 2.

(** Two files of five frames each, without header. *)
Definition file_a : File := mkFile "a.raw"%string 0 5 0 false.
Definition file_b : File := mkFile "b.raw"%string 5 10 0 false.

(** The file set over the two sample files, as [FileSet.__init__] builds
    it. *)
Definition fileset_ab : FileSet :=
  mkFileSet [file_a; file_b] (enumerate_from 0 [file_a; file_b]) false 0 0.

(** Ten frames with a [2 x 2] signal. *)
Definition shape_10_2_2 : Shape := mkShape [10; 2; 2] 2.

(** Ten frames with a one-dimensional signal of four samples. *)
Definition shape_10_4 : Shape := mkShape [10; 4] 1.

Definition meta_10_2_2 : DataSetMeta := mkMeta shape_10_2_2 uint16.
Definition meta_10_4 : DataSetMeta := mkMeta shape_10_4 uint16.

(** An ROI over ten frames that selects none. *)
Definition all_false_10 : ROI := Some (repeat false 10).

(** A disk full of zeros: a read of [n] bytes delivers [n / 2] samples of
    two bytes. *)
Definition no_samples (r : ReadInstr) : list Z :=
  repeat 0 (Z.to_nat (rr_length r / 2)).

(** The partition of frames [[5, 10)] of ten frames with a [2 x 2]
    signal. *)
Definition partition_5_10 : BasePartition :=
  mkBasePartition (mkPartition meta_10_2_2 (part_slice shape_10_2_2 5 10))
                  (mkFileSet [file_b] (enumerate_from 0 [file_b]) false 0 0)
                  5 5.

(** The partition of frames [[5, 10)] of ten frames with a four-sample
    one-dimensional signal. *)
Definition partition_5_10_sig4 : BasePartition :=
  mkBasePartition (mkPartition meta_10_4 (part_slice shape_10_4 5 10))
                  (mkFileSet [file_b] (enumerate_from 0 [file_b]) false 0 0)
                  5 5.

(** A body that fails with an I/O error and leaves the file set as it is. *)
Definition failing_body (fs : FileSet) : result unit * FileSet :=
  (Raise IOError, fs).

(** A [uint16] buffer of two frames of a [2 x 2] signal, and a buffer of the
    same shape that no frame was written to. *)
Definition dest_buffer : PickResults :=
  mkPickResults (mkArray uint16 [2; 2; 2] [7; 0; 65535; 12; 1; 2; 3; 4]).

Definition zero_buffer : PickResults :=
  mkPickResults (np_zeros [2; 2; 2] uint16).

(** ** Further methods of [FileSet] and [BasePartition] *)

(** [__len__] *)
Definition FileSet_len (fs : FileSet) : Z := Z.of_nat (length (_files fs)).

(** [__getitem__] for an integer index: [self._files[idx]], with Python's
    list indexing (a negative index counts from the end, an index out of
    range raises [IndexError]). *)
Definition FileSet_getitem (fs : FileSet) (i : Z) : result File :=
  let n := FileSet_len fs in
  let j := if i <? 0 then i + n else i in
  if (0 <=? j) && (j <? n)
  then match nth_error (_files fs) (Z.to_nat j) with
       | Some f => Ok f
       | None => Raise IndexError
       end
  else Raise IndexError.

(** [__iter__] *)
Definition FileSet_iter (fs : FileSet) : list File := _files fs.

(** [get_base_shape]:
    [(1,) + (1,) * (self.shape.sig.dims - 1) + (self.shape.sig[-1],)].
    Repeating a tuple a negative number of times gives the empty tuple, and
    indexing an empty signal with [-1] raises [IndexError]. *)
Definition get_base_shape (p : BasePartition) : result (list Z) :=
  let sig := shape_sig (Partition_shape (base p)) in
  match sig with
  | [] => Raise IndexError
  | x :: rest => Ok ((1 :: repeat 1 (length sig - 1)) ++ [last rest x])
  end.

(** [adjust_tileshape] *)
Definition adjust_tileshape (p : BasePartition) (tileshape : list Z) : list Z :=
  tileshape.

(** The state of a descriptor after a successful [open()]. *)
Definition File_opened (f : File) : File :=
  mkFile (path f) (start_idx f) (end_idx f) (file_header_bytes f) true.

(** The ranges [[0,1) [1,2) ... [n-1,n)]. *)
Definition one_frame_ranges (n : Z) : list (Z * Z) :=
  map (fun i => (Z.of_nat i, Z.of_nat i + 1)) (seq 0 (Z.to_nat n)).

(** The file set as a body of a [with] statement sees it after a successful
    [__enter__]. *)
Definition FileSet_opened (fs : FileSet) : FileSet :=
  with_files fs (map File_opened (_files fs)) true.

(** A file the file system refuses to open. *)
Definition file_missing : File := mkFile "missing.raw"%string 10 15 0 false.

(** ** [PickUDF.process_tile] *)

(** Assigning one element of a flat buffer; an index past the end assigns
    nothing. *)
Fixpoint set_nth (n : nat) (v : Z) (l : list Z) : list Z :=
  match l with
  | [] => []
  | x :: l' =>
      match n with
      | O => v :: l'
      | S n' => x :: set_nth n' v l'
      end
  end.

(** The multi-indices of the box with the given origin and extents, in
    row-major order. *)
Fixpoint box_indices (origin extents : list Z) : list (list Z) :=
  match origin, extents with
  | o :: origin', e :: extents' =>
      flat_map (fun i => map (cons (o + Z.of_nat i)) (box_indices origin' extents'))
               (seq 0 (Z.to_nat e))
  | _, _ => [[]]
  end.

(** The positions, in a row-major buffer of shape [dims], of the elements
    the index expression [sl.get()] selects; [sl.get()] is the tuple of
    Python slices [origin[i] : origin[i] + shape[i]]. *)
Definition box_positions (dims : list Z) (sl : Slice) : list nat :=
  map (fun idx => Z.to_nat (flat_index dims idx))
      (box_indices (origin sl) (shape_dims (shape sl))).

(** The slice has one range per axis of the buffer, and every range lies
    within the axis: no clipping and no wrap-around of negative bounds. *)
Fixpoint in_bounds (dims origin extents : list Z) : bool :=
  match dims, origin, extents with
  | [], [], [] => true
  | d :: dims', o :: origin', e :: extents' =>
      (0 <=? o) && (0 <=? e) && (o + e <=? d) && in_bounds dims' origin' extents'
  | _, _, _ => false
  end.

(** The assignments in the order given; each value is stored in the element
    type of the buffer. *)
Definition write_all (d : dtype) (pvs : list (nat * Z)) (data : list Z) : list Z :=
  fold_left (fun acc pv => set_nth (fst pv) (wrap d (snd pv)) acc) pvs data.

(** [dest[sl.get()] = tile] for a slice within the bounds of [dest] and a
    tile of the shape of the slice.  Other combinations (clipped slices,
    broadcasting) are outside the model: [None]. *)
Definition setitem_slice (dest : ndarray) (sl : Slice) (tile : ndarray)
  : option ndarray :=
  if in_bounds (arr_shape dest) (origin sl) (shape_dims (shape sl))
     && list_Z_eqb (arr_shape tile) (shape_dims (shape sl))
  then Some (mkArray (arr_dtype dest) (arr_shape dest)
               (write_all (arr_dtype dest)
                  (combine (box_positions (arr_shape dest) sl) (arr_data tile))
                  (arr_data dest)))
  else None.

(** [process_tile(tile)]: [self.results.intensity[self.meta.slice.get()] = tile],
    where [meta_slice] is the slice of the tile in the flattened navigation
    space with the ROI applied, and [results.intensity] is the whole
    ['single'] buffer. *)
Definition process_tile (meta_slice : Slice) (results : PickResults)
           (tile : ndarray) : option PickResults :=
  option_map mkPickResults (setitem_slice (intensity results) meta_slice tile).

(** The value the assignments leave at position [i], if any of them is at
    [i]: the last one. *)
Fixpoint written (d : dtype) (pvs : list (nat * Z)) (i : nat) : option Z :=
  match pvs with
  | [] => None
  | pv :: rest =>
      match written d rest i with
      | Some w => Some w
      | None => if Nat.eqb (fst pv) i then Some (wrap d (snd pv)) else None
      end
  end.

(** The navigation ranges of two slices do not meet. *)
Definition nav_disjoint (s1 s2 : Slice) : Prop :=
  match origin s1, shape_dims (shape s1), origin s2, shape_dims (shape s2) with
  | o1 :: _, e1 :: _, o2 :: _, e2 :: _ => o1 + e1 <= o2 \/ o2 + e2 <= o1
  | _, _, _, _ => False
  end.

(** Two tiles of two frames each of a [2 x 2] signal, for frames [[0, 2)]
    and [[2, 4)] of a buffer of four frames. *)
Definition slice_0_2 : Slice := mkSlice [0; 0; 0] (mkShape [2; 2; 2] 2).
Definition slice_2_4 : Slice := mkSlice [2; 0; 0] (mkShape [2; 2; 2] 2).

Definition tile_0_2 : ndarray :=
  mkArray uint16 [2; 2; 2] [1; 2; 3; 4; 5; 6; 7; 8].

Definition tile_2_4 : ndarray :=
  mkArray uint16 [2; 2; 2] [11; 12; 13; 14; 15; 16; 17; 18].

Definition zero_buffer_4 : PickResults :=
  mkPickResults (np_zeros [4; 2; 2] uint16).

(** Merging [src] into [dest] when [dest] is itself the outcome of a merge. *)
Definition merge_into (dest : option (result PickResults)) (src : PickResults)
  : option (result PickResults) :=
  match dest with
  | Some (Ok r) => merge r src
  | Some (Raise e) => Some (Raise e)
  | None => None
  end.

(** The number of frames of a list of ranges. *)
Definition total_frames (rs : list (Z * Z)) : Z :=
  fold_right (fun r acc => (snd r - fst r) + acc) 0 rs.



Definition int16 : dtype := mkDType true 2.

(** The frame range and header size of a file fit into [np.int64]. *)
Definition fits_int64 (f : File) : bool :=
  in_int64 (start_idx f) && in_int64 (end_idx f)
  && in_int64 (file_header_bytes f).

(** * Properties *)

(** ** [make_slices] *)

Lemma tiles_from_le (rs : list (Z * Z)) :
  forall lo hi, tiles_from lo hi rs -> lo <= hi.
Proof.
  induction rs as [|[a b] rs IH]; cbn; intros lo hi H.
  - lia.
  - destruct H as (-> & Hab & Hrest). apply IH in Hrest. lia.
Qed.

(** Adjacent non-empty ranges from [lo] to [hi] cover every frame of
    [[lo, hi)] and nothing else. *)
Lemma tiles_from_cover (rs : list (Z * Z)) :
  forall lo hi, tiles_from lo hi rs ->
    forall x, lo <= x < hi <-> exists r, In r rs /\ fst r <= x < snd r.
Proof.
  induction rs as [|[a b] rs IH]; cbn; intros lo hi H x.
  - split; [lia | intros (r & [] & _)].
  - destruct H as (-> & Hab & Hrest).
    pose proof (tiles_from_le _ _ _ Hrest) as Hle.
    specialize (IH _ _ Hrest x). split.
    + intros Hx. destruct (Z_lt_le_dec x b) as [Hlt | Hge].
      * exists (lo, b). cbn. split; [left; reflexivity | lia].
      * destruct (proj1 IH) as (r & Hin & Hr); [lia|].
        exists r. split; [right; exact Hin | exact Hr].
    + intros (r & [<- | Hin] & Hr).
      * cbn in Hr. lia.
      * assert (b <= x < hi) by (apply IH; exists r; split; assumption). lia.
Qed.

(** Every range lies inside [[lo, hi)] and is non-empty. *)
Lemma tiles_from_bounds (rs : list (Z * Z)) :
  forall lo hi, tiles_from lo hi rs ->
    forall r, In r rs -> lo <= fst r /\ fst r < snd r /\ snd r <= hi.
Proof.
  induction rs as [|[a b] rs IH]; cbn; intros lo hi H r Hin; [contradiction|].
  destruct H as (-> & Hab & Hrest).
  pose proof (tiles_from_le _ _ _ Hrest) as Hle.
  destruct Hin as [<- | Hin]; cbn; [lia|].
  specialize (IH _ _ Hrest r Hin). lia.
Qed.

(** ... and no frame lies in two of them. *)
Lemma tiles_from_disjoint (rs : list (Z * Z)) :
  forall lo hi, tiles_from lo hi rs ->
    forall r1 r2 x, In r1 rs -> In r2 rs ->
      fst r1 <= x < snd r1 -> fst r2 <= x < snd r2 -> r1 = r2.
Proof.
  induction rs as [|[a b] rs IH]; cbn; intros lo hi H r1 r2 x H1 H2 Hx1 Hx2;
    [contradiction|].
  destruct H as (-> & Hab & Hrest).
  pose proof (tiles_from_bounds _ _ _ Hrest) as Hb.
  destruct H1 as [<- | H1], H2 as [<- | H2]; cbn in *.
  - reflexivity.
  - specialize (Hb _ H2). lia.
  - specialize (Hb _ H1). lia.
  - exact (IH _ _ Hrest r1 r2 x H1 H2 Hx1 Hx2).
Qed.

Section MakeSlicesFacts.

Variable shape0 : Shape.

Lemma make_slices_loop_spec (n f : Z) (Hf : 0 < f) :
  forall (fuel : nat) (c0 : Z),
    c0 < n + f ->
    (Z.to_nat (n - c0) < fuel)%nat ->
    exists l,
      make_slices_loop fuel shape0 n f c0 (c0 + f) = Some l
      /\ tiles_from (Z.min c0 n) n (ranges l)
      /\ only_last_smaller f (ranges l)
      /\ Z.of_nat (length l) = (n - c0 + f - 1) / f
      /\ Forall (fun i => item_slice i = part_slice shape0 (item_start i) (item_stop i)) l.
Proof.
  induction fuel as [|fuel IH]; intros c0 Hc Hfuel; [lia|].
  cbn [make_slices_loop].
  destruct (c0 >=? n) eqn:E.
  - apply Z.geb_le in E.
    exists []. cbn. repeat split; try lia; auto.
    symmetry. apply Z.div_small. lia.
  - rewrite Z.geb_leb in E. apply Z.leb_gt in E.
    destruct (IH (c0 + f)) as (rest & Hrun & Ht & Hs & Hl & Hsl); try lia.
    rewrite Hrun. eexists. split; [reflexivity|].
    cbn [ranges map item_start item_stop fst snd tiles_from].
    fold (ranges rest).
    repeat split.
    + lia.
    + lia.
    + exact Ht.
    + cbn [only_last_smaller].
      destruct (ranges rest) as [|[a b] rs'] eqn:Er.
      * lia.
      * split; [|exact Hs].
        cbn [tiles_from] in Ht. destruct Ht as (Ha & Hab & Hrest).
        apply tiles_from_le in Hrest. lia.
    + cbn [length]. rewrite Nat2Z.inj_succ, Hl.
      replace (n - c0 + f - 1) with ((n - (c0 + f) + f - 1) + 1 * f) by lia.
      rewrite Z.div_add by lia. lia.
    + constructor; [reflexivity | exact Hsl].
Qed.

(** More fuel never changes a completed run. *)
Lemma make_slices_loop_fuel_mono (n f : Z) :
  forall (fuel fuel' : nat) (c0 c1 : Z) l,
    (fuel <= fuel')%nat ->
    make_slices_loop fuel shape0 n f c0 c1 = Some l ->
    make_slices_loop fuel' shape0 n f c0 c1 = Some l.
Proof.
  induction fuel as [|fuel IH]; intros fuel' c0 c1 l Hle Hrun; [discriminate|].
  destruct fuel' as [|fuel']; [lia|].
  cbn [make_slices_loop] in *.
  destruct (c0 >=? n); [exact Hrun|].
  destruct (make_slices_loop fuel shape0 n f (c0 + f) (c1 + f)) as [rest|] eqn:E;
    [|discriminate].
  rewrite (IH fuel' _ _ rest); [exact Hrun | lia | exact E].
Qed.

End MakeSlicesFacts.

(** The number of ranges, [ceil (n / f)] for [f = max 1 (n // k)], never
    exceeds [2k - 1]; it is [k] when [k] divides [n], [n] when [n < k], and
    more than [k] in the remaining cases. *)
Lemma range_count_bounds (n k : Z) :
  1 <= k -> 0 <= n ->
  let f := f_per_part n k in
  let count := (n + f - 1) / f in
  count <= 2 * k - 1
  /\ (0 < n -> n mod k = 0 -> count = k)
  /\ (n < k -> count = n)
  /\ (k <= n -> n mod k <> 0 -> k < count).
Proof.
  intros Hk Hn f count. subst count f. unfold f_per_part.
  pose proof (Z.div_mod n k ltac:(lia)) as Hdm.
  pose proof (Z.mod_pos_bound n k ltac:(lia)) as Hr.
  assert (Hq : 0 <= n / k) by (apply Z.div_pos; lia).
  destruct (Z_lt_le_dec n k) as [Hlt | Hge].
  - rewrite (Z.div_small n k) by lia. cbn [Z.max].
    replace (Z.max 1 0) with 1 by lia.
    replace (n + 1 - 1) with n by lia. rewrite Z.div_1_r.
    repeat split; try lia.
    intros Hpos Hmod. rewrite Z.mod_small in Hmod by lia. lia.
  - assert (Hq1 : 1 <= n / k).
    { apply Z.div_le_lower_bound; lia. }
    rewrite Z.max_r by lia.
    set (q := n / k) in *. set (r := n mod k) in *.
    repeat split.
    + apply Z.lt_succ_r. apply Z.div_lt_upper_bound; nia.
    + intros _ Hmod. replace (n + q - 1) with ((q - 1) + k * q) by nia.
      rewrite Z.div_add by lia. rewrite Z.div_small by lia. lia.
    + lia.
    + intros _ Hmod.
      assert (k + 1 <= (n + q - 1) / q); [|lia].
      apply Z.div_le_lower_bound; nia.
Qed.

(** C1, as the code has it: for every shape with [n >= 0] navigation
    positions and every partition count [k >= 1] the generator terminates and
    yields non-empty, ascending, pairwise adjacent frame ranges whose union is
    exactly [[0, n)]; every range but the last has [f = max 1 (n // k)]
    frames and the last has at most [f].  The number of ranges is
    [ceil (n / f)]: exactly [k] when [k] divides [n > 0], [n] when [n < k],
    more than [k] when [k <= n] and [k] does not divide [n], and never more
    than [2k - 1].  Each yielded
    slice starts at its range's first frame and spans the whole signal. *)
Theorem make_slices_partitions (shape : Shape) (k : Z) :
  1 <= k -> 0 <= nav_size shape ->
  exists l,
    make_slices shape k = Some (Ok l)
    /\ let n := nav_size shape in
       let f := f_per_part n k in
       let rs := ranges l in
       tiles_from 0 n rs
       /\ (forall x, 0 <= x < n <-> exists r, In r rs /\ fst r <= x < snd r)
       /\ (forall r1 r2 x, In r1 rs -> In r2 rs ->
             fst r1 <= x < snd r1 -> fst r2 <= x < snd r2 -> r1 = r2)
       /\ only_last_smaller f rs
       /\ Z.of_nat (length l) = (n + f - 1) / f
       /\ Z.of_nat (length l) <= 2 * k - 1
       /\ (0 < n -> n mod k = 0 -> Z.of_nat (length l) = k)
       /\ (n < k -> Z.of_nat (length l) = n)
       /\ (k <= n -> n mod k <> 0 -> k < Z.of_nat (length l))
       /\ Forall (fun i => item_slice i = part_slice shape (item_start i) (item_stop i)) l.
Proof.
  intros Hk Hn. unfold make_slices, make_slices_fuel.
  destruct (k =? 0) eqn:Ek; [apply Z.eqb_eq in Ek; lia|].
  set (n := nav_size shape) in *. set (f := f_per_part n k).
  assert (Hf : 0 < f) by (unfold f, f_per_part; lia).
  destruct (make_slices_loop_spec shape n f Hf (S (Z.to_nat n)) 0)
    as (l & Hrun & Ht & Hs & Hl & Hsl); try lia.
  cbn [Z.add] in Hrun. rewrite Hrun. exists l. split; [reflexivity|].
  rewrite Z.min_l in Ht by lia.
  replace (n - 0 + f - 1) with (n + f - 1) in Hl by lia.
  destruct (range_count_bounds n k Hk Hn) as (Hb1 & Hb2 & Hb3 & Hb4).
  fold n f in Hb1, Hb2, Hb3, Hb4. cbv zeta in *.
  split; [exact Ht|].
  split; [exact (tiles_from_cover _ _ _ Ht)|].
  split; [exact (tiles_from_disjoint _ _ _ Ht)|].
  split; [exact Hs|].
  rewrite Hl. repeat split; assumption.
Qed.

Lemma make_slices_partitions_witness :
  1 <= 3 /\ 0 <= nav_size shape_10_2_2 /\
  exists l, make_slices shape_10_2_2 3 = Some (Ok l)
            /\ tiles_from 0 (nav_size shape_10_2_2) (ranges l).
Proof.
  split; [lia|]. split; [vm_compute; discriminate|].
  destruct (make_slices_partitions shape_10_2_2 3) as (l & Hrun & Ht & _).
  - lia.
  - vm_compute; discriminate.
  - exists l. split; [exact Hrun | exact Ht].
Defined.

(** C1 as stated fails: ten frames requested in three partitions come out
    as four ranges, [[0,3) [3,6) [6,9) [9,10)]. *)
Lemma make_slices_yields_more_than_requested :
  exists l,
    make_slices shape_10_2_2 3 = Some (Ok l)
    /\ ranges l = [(0, 3); (3, 6); (6, 9); (9, 10)]
    /\ ~ (Z.of_nat (length l) <= 3).
Proof.
  eexists. split; [vm_compute; reflexivity|].
  split; [reflexivity | cbn; lia].
Qed.

(** ** Ordering the file index *)

Lemma insert_node_perm (x : FileTreeNode) (t : list FileTreeNode) :
  Permutation (insert_node x t) (x :: t).
Proof.
  induction t as [|y t IH]; cbn; [reflexivity|].
  destruct (low x <=? low y); [reflexivity|].
  rewrite IH. apply perm_swap.
Qed.

Lemma sort_nodes_perm (t : list FileTreeNode) : Permutation (sort_nodes t) t.
Proof.
  induction t as [|x t IH]; [reflexivity|].
  change (sort_nodes (x :: t)) with (insert_node x (sort_nodes t)).
  rewrite insert_node_perm. constructor. exact IH.
Qed.

Lemma insert_node_sorted (x : FileTreeNode) (t : list FileTreeNode) :
  StronglySorted le_low t -> StronglySorted le_low (insert_node x t).
Proof.
  induction 1 as [|y t Hs IH Hy]; cbn.
  - repeat constructor.
  - destruct (low x <=? low y) eqn:E.
    + apply Z.leb_le in E. constructor; [constructor; assumption|].
      constructor; [exact E|].
      eapply Forall_impl; [|exact Hy]. unfold le_low. intros; lia.
    + apply Z.leb_gt in E. constructor; [exact IH|].
      apply (Permutation_Forall (Permutation_sym (insert_node_perm x t))).
      constructor; [unfold le_low; lia | exact Hy].
Qed.

Lemma sort_nodes_sorted (t : list FileTreeNode) :
  StronglySorted le_low (sort_nodes t).
Proof.
  induction t as [|x t IH]; [constructor|].
  change (sort_nodes (x :: t)) with (insert_node x (sort_nodes t)).
  apply insert_node_sorted. exact IH.
Qed.

(** Sorting leaves an ordered list as it is. *)
Lemma sort_nodes_id (t : list FileTreeNode) :
  StronglySorted le_low t -> sort_nodes t = t.
Proof.
  induction 1 as [|x t Hs IH Hx]; [reflexivity|].
  change (sort_nodes (x :: t)) with (insert_node x (sort_nodes t)).
  rewrite IH. destruct t as [|y t]; cbn; [reflexivity|].
  inversion Hx as [|? ? Hxy _]; subst. unfold le_low in Hxy.
  apply Z.leb_le in Hxy. rewrite Hxy. reflexivity.
Qed.

(** An ordered arrangement of a strictly ordered list is that list. *)
Lemma sorted_perm_unique {A : Type} (key : A -> Z) (b : list A) :
  forall a,
    StronglySorted (fun x y => key x <= key y) a ->
    StronglySorted (fun x y => key x < key y) b ->
    Permutation a b -> a = b.
Proof.
  induction b as [|y b IH]; intros a Ha Hb Hp.
  - apply Permutation_sym, Permutation_nil in Hp. exact Hp.
  - destruct a as [|x a].
    { apply Permutation_nil in Hp. discriminate. }
    inversion Ha as [|? ? Ha' Hxa]; subst.
    inversion Hb as [|? ? Hb' Hyb]; subst.
    assert (Hx : In x (y :: b)).
    { apply (Permutation_in _ Hp). left; reflexivity. }
    assert (Hy : In y (x :: a)).
    { apply (Permutation_in _ (Permutation_sym Hp)). left; reflexivity. }
    assert (Exy : x = y).
    { destruct Hx as [Hx | Hx]; [symmetry; exact Hx|].
      destruct Hy as [Hy | Hy]; [exact Hy|].
      rewrite Forall_forall in Hxa, Hyb.
      specialize (Hxa _ Hy). specialize (Hyb _ Hx). lia. }
    subst y. f_equal. apply IH; try assumption.
    exact (Permutation_cons_inv Hp).
Qed.

Lemma StronglySorted_map {A B : Type} (f : A -> B)
      (R : B -> B -> Prop) (l : list A) :
  StronglySorted R (map f l) <-> StronglySorted (fun x y => R (f x) (f y)) l.
Proof.
  induction l as [|x l IH]; cbn.
  - split; constructor.
  - split; intros H; inversion H as [|? ? Hs Hf]; subst; constructor.
    + apply IH. exact Hs.
    + rewrite Forall_map in Hf. exact Hf.
    + apply IH. exact Hs.
    + rewrite Forall_map. exact Hf.
Qed.

(** ** Contiguous file lists *)

Lemma contiguous_tail (f : File) (files : list File) :
  contiguous (f :: files) -> contiguous files.
Proof.
  destruct files as [|g files]; cbn; [trivial | intros [_ H]; exact H].
Qed.

(** In a contiguous list of non-empty files every later file starts at or
    after the end of the first. *)
Lemma contiguous_after (f : File) (files : list File) :
  contiguous (f :: files) -> Forall File_wf files ->
  Forall (fun g => end_idx f <= start_idx g) files.
Proof.
  revert f. induction files as [|g files IH]; intros f Hc Hwf; constructor.
  - cbn in Hc. lia.
  - inversion Hwf as [|? ? Hg Hwf']; subst.
    destruct Hc as [Hfg Hc]. specialize (IH g Hc Hwf').
    eapply Forall_impl; [|exact IH]. unfold File_wf in Hg. cbn. intros; lia.
Qed.

Lemma contiguous_sorted (files : list File) :
  contiguous files -> Forall File_wf files ->
  StronglySorted (fun f g => start_idx f < start_idx g) files.
Proof.
  induction files as [|f files IH]; intros Hc Hwf; constructor.
  - inversion Hwf; subst. apply IH; [eapply contiguous_tail; eassumption | assumption].
  - inversion Hwf as [|? ? Hf Hwf']; subst.
    pose proof (contiguous_after f files Hc Hwf') as H.
    eapply Forall_impl; [|exact H]. unfold File_wf in Hf. cbn. intros; lia.
Qed.

Lemma chained_contiguous (ps : list (nat * File)) :
  chained (map node_of ps) = true <-> contiguous (map snd ps).
Proof.
  induction ps as [|p ps IH]; cbn; [tauto|].
  destruct ps as [|q ps]; [cbn; tauto|].
  cbn [map] in *. rewrite andb_true_iff, Z.eqb_eq, IH. cbn. tauto.
Qed.

Lemma enumerate_from_combine (files : list File) :
  forall i, enumerate_from i files
            = map node_of (combine (seq i (length files)) files).
Proof.
  induction files as [|f files IH]; intros i; cbn; [reflexivity|].
  rewrite IH. reflexivity.
Qed.

Lemma snd_combine_seq (files : list File) :
  forall i, map snd (combine (seq i (length files)) files) = files.
Proof.
  induction files as [|f files IH]; intros i; cbn; [reflexivity|].
  rewrite IH. reflexivity.
Qed.

(** ** [FileTree.make] accepts exactly the coverable lists *)

Lemma FileTree_make_sound (files : list File) (t : FileTree) :
  FileTree_make files = Some t -> files <> [] /\ coverable files.
Proof.
  destruct files as [|f files]; [discriminate|].
  unfold FileTree_make. set (fl := f :: files).
  destruct (chained (sort_nodes (enumerate_from 0 fl))) eqn:Hch; [|discriminate].
  intros _. split; [discriminate|].
  assert (Hp : Permutation (sort_nodes (enumerate_from 0 fl))
                           (map node_of (combine (seq 0 (length fl)) fl))).
  { rewrite <- enumerate_from_combine. apply sort_nodes_perm. }
  apply Permutation_map_inv in Hp. destruct Hp as (ps & Hps & Hperm).
  rewrite Hps in Hch. apply chained_contiguous in Hch.
  exists (map snd ps). split; [|exact Hch].
  pose proof (Permutation_map snd Hperm) as H.
  rewrite snd_combine_seq in H. symmetry. exact H.
Qed.

Lemma FileTree_make_complete (files : list File) :
  files <> [] -> Forall File_wf files -> coverable files ->
  exists t, FileTree_make files = Some t.
Proof.
  intros Hne Hwf (l & Hperm & Hc).
  destruct files as [|f files]; [contradiction|].
  unfold FileTree_make. set (fl := f :: files) in *.
  cut (chained (sort_nodes (enumerate_from 0 fl)) = true).
  { intros ->. eexists; reflexivity. }
  (* the sorted index, seen as pairs of a position and a file *)
  assert (Hp : Permutation (sort_nodes (enumerate_from 0 fl))
                           (map node_of (combine (seq 0 (length fl)) fl))).
  { rewrite <- enumerate_from_combine. apply sort_nodes_perm. }
  pose proof (sort_nodes_sorted (enumerate_from 0 fl)) as Hs.
  apply Permutation_map_inv in Hp. destruct Hp as (ps & Hps & Hpps).
  rewrite Hps in Hs |- *.
  (* the contiguous arrangement, seen the same way *)
  assert (Hl : Permutation l (map snd (combine (seq 0 (length fl)) fl))).
  { rewrite snd_combine_seq. exact Hperm. }
  apply Permutation_map_inv in Hl. destruct Hl as (pl & Hpl & Hppl).
  assert (Hwfl : Forall File_wf l).
  { apply (Permutation_Forall (Permutation_sym Hperm)). exact Hwf. }
  pose proof (contiguous_sorted l Hc Hwfl) as Hsl.
  rewrite Hpl in Hsl.
  apply (StronglySorted_map snd (fun f g => start_idx f < start_idx g)) in Hsl.
  apply (StronglySorted_map node_of le_low) in Hs.
  assert (E : ps = pl).
  { apply (sorted_perm_unique (fun p => start_idx (snd p)));
      [exact Hs | exact Hsl |].
    rewrite <- Hpps. exact Hppl. }
  subst ps. apply chained_contiguous. rewrite <- Hpl. exact Hc.
Qed.

(** C7: [FileSet] construction fails on an empty list (the assertion) and
    on a list of files that cannot be ordered into a gap-free,
    non-overlapping cover (the [ValueError]); for every other list of
    well-formed descriptors it succeeds and yields a closed file set over
    the given files. *)
Theorem FileSet_init_validates
        (files : list File) (frame_header_bytes frame_footer_bytes : Z) :
  Forall File_wf files ->
  (files = [] ->
   FileSet_init files frame_header_bytes frame_footer_bytes = Raise AssertionError)
  /\ (files <> [] -> ~ coverable files ->
      FileSet_init files frame_header_bytes frame_footer_bytes
      = Raise (ValueError FilesRejected))
  /\ (files <> [] -> coverable files ->
      exists fs,
        FileSet_init files frame_header_bytes frame_footer_bytes = Ok fs
        /\ _files fs = files
        /\ _files_open fs = false
        /\ _frame_header_bytes fs = frame_header_bytes
        /\ _frame_footer_bytes fs = frame_footer_bytes).
Proof.
  intros Hwf. unfold FileSet_init. repeat split.
  - intros ->. reflexivity.
  - intros Hne Hnc. destruct files as [|f files]; [contradiction|].
    cbn [length Nat.ltb Nat.leb].
    destruct (FileTree_make (f :: files)) as [t|] eqn:E; [|reflexivity].
    apply FileTree_make_sound in E. tauto.
  - intros Hne Hc. destruct (FileTree_make_complete files Hne Hwf Hc) as (t & E).
    destruct files as [|f files]; [contradiction|].
    cbn [length Nat.ltb Nat.leb]. rewrite E.
    eexists. split; [reflexivity|]. cbn. tauto.
Qed.

Lemma FileSet_init_validates_witness :
  Forall File_wf [file_a; file_b]
  /\ exists fs, FileSet_init [file_a; file_b] 0 0 = Ok fs
                /\ _files fs = [file_a; file_b].
Proof.
  assert (Hwf : Forall File_wf [file_a; file_b]).
  { repeat constructor; unfold File_wf; cbn; lia. }
  split; [exact Hwf|].
  destruct (FileSet_init_validates [file_a; file_b] 0 0 Hwf) as (_ & _ & H).
  destruct H as (fs & E & Hf & _).
  - discriminate.
  - exists [file_a; file_b]. split; [reflexivity | cbn; tauto].
  - exists fs. split; assumption.
Defined.

(** ** The index of a contiguous file list *)

Lemma enumerate_from_Forall (P : FileTreeNode -> Prop) (files : list File) :
  forall i,
    Forall (fun f => forall j, P (mkNode (start_idx f) (end_idx f) j)) files ->
    Forall P (enumerate_from i files).
Proof.
  induction files as [|f files IH]; intros i H; cbn; constructor;
    inversion H; subst; auto.
Qed.

Lemma enumerate_from_sorted (files : list File) :
  forall i,
    StronglySorted (fun f g => start_idx f < start_idx g) files ->
    StronglySorted le_low (enumerate_from i files).
Proof.
  induction files as [|f files IH]; intros i H; cbn; constructor;
    inversion H as [|? ? Hs Hf]; subst.
  - apply IH. exact Hs.
  - apply enumerate_from_Forall. eapply Forall_impl; [|exact Hf].
    unfold le_low. cbn. intros; lia.
Qed.

Lemma FileTree_make_contiguous (files : list File) :
  files <> [] -> Forall File_wf files -> contiguous files ->
  FileTree_make files = Some (enumerate_from 0 files).
Proof.
  intros Hne Hwf Hc. destruct files as [|f files]; [contradiction|].
  unfold FileTree_make. set (fl := f :: files) in *.
  rewrite sort_nodes_id
    by (apply enumerate_from_sorted, contiguous_sorted; assumption).
  rewrite enumerate_from_combine.
  rewrite (proj2 (chained_contiguous _)); [reflexivity|].
  rewrite snd_combine_seq. exact Hc.
Qed.

Lemma search_start_lookup (t : FileTree) (frame : Z) :
  search_start t frame
  = match lookup t frame with Some x => idx x | None => length t end.
Proof.
  unfold search_start, lookup.
  destruct (find (contains_frame frame) t); reflexivity.
Qed.

Lemma find_none_Forall {A : Type} (p : A -> bool) (l : list A) :
  Forall (fun x => p x = false) l -> find p l = None.
Proof.
  induction 1 as [|x l Hx _ IH]; cbn; [reflexivity|].
  rewrite Hx. exact IH.
Qed.

Lemma filter_all {A : Type} (p : A -> bool) (l : list A) :
  Forall (fun x => p x = true) l -> filter p l = l.
Proof.
  induction 1 as [|x l Hx _ IH]; cbn; [reflexivity|].
  rewrite Hx, IH. reflexivity.
Qed.

Lemma filter_none {A : Type} (p : A -> bool) (l : list A) :
  Forall (fun x => p x = false) l -> filter p l = [].
Proof.
  induction 1 as [|x l Hx _ IH]; cbn; [reflexivity|].
  rewrite Hx. exact IH.
Qed.

(** The lower bound found in the index of a contiguous list is the position
    of the first file that ends after [a]; the files from there on are
    exactly those ending after [a]. *)
Lemma lookup_contiguous (a : Z) (files : list File) :
  forall i,
    contiguous files -> Forall File_wf files ->
    (exists x k,
        lookup (enumerate_from i files) a = Some x
        /\ idx x = (i + k)%nat
        /\ skipn k files = filter (fun f => a <? end_idx f) files)
    \/ (lookup (enumerate_from i files) a = None
        /\ filter (fun f => a <? end_idx f) files = []).
Proof.
  induction files as [|f files IH]; intros i Hc Hwf.
  - right. split; reflexivity.
  - inversion Hwf as [|? ? Hf Hwf']; subst. unfold File_wf in Hf.
    pose proof (contiguous_after f files Hc Hwf') as Hafter.
    destruct (Z_lt_le_dec a (end_idx f)) as [Hlt | Hge].
    + left. exists (mkNode (start_idx f) (end_idx f) i), 0%nat.
      assert (Hrest : filter (fun g => a <? end_idx g) files = files).
      { apply filter_all. rewrite Forall_forall in Hafter, Hwf' |- *.
        intros g Hg. specialize (Hafter g Hg). specialize (Hwf' g Hg).
        unfold File_wf in Hwf'. apply Z.ltb_lt. lia. }
      repeat split.
      * unfold lookup. cbn [enumerate_from find].
        unfold contains_frame at 1. cbn [low high].
        destruct (Z_le_gt_dec (start_idx f) a) as [Hs | Hs].
        -- rewrite (proj2 (Z.leb_le _ _) Hs), (proj2 (Z.ltb_lt _ _) Hlt).
           reflexivity.
        -- rewrite (proj2 (Z.leb_gt _ _)) by lia. cbn [andb].
           rewrite find_none_Forall.
           ++ unfold starts_at_or_after. cbn [low].
              rewrite (proj2 (Z.leb_le _ _)) by lia. reflexivity.
           ++ apply enumerate_from_Forall. eapply Forall_impl; [|exact Hafter].
              cbn. intros g Hg j. unfold contains_frame. cbn [low high].
              rewrite (proj2 (Z.leb_gt _ _)) by lia. reflexivity.
      * cbn. lia.
      * cbn [skipn filter]. rewrite (proj2 (Z.ltb_lt _ _) Hlt), Hrest.
        reflexivity.
    + assert (Hskip : lookup (enumerate_from i (f :: files)) a
                      = lookup (enumerate_from (S i) files) a).
      { unfold lookup. cbn [enumerate_from find].
        unfold contains_frame at 1, starts_at_or_after at 1. cbn [low high].
        rewrite (proj2 (Z.ltb_ge _ _)) by lia. rewrite andb_false_r.
        rewrite (proj2 (Z.leb_gt _ _)) by lia. reflexivity. }
      rewrite Hskip. cbn [filter]. rewrite (proj2 (Z.ltb_ge _ _)) by lia.
      destruct (IH (S i) (contiguous_tail f files Hc) Hwf')
        as [(x & k & Hl & Hi & Hk) | (Hl & Hk)].
      * left. exists x, (S k). repeat split; [exact Hl | lia | exact Hk].
      * right. split; assumption.
Qed.

Lemma enumerate_from_length (files : list File) :
  forall i, length (enumerate_from i files) = length files.
Proof.
  induction files as [|f files IH]; intros i; cbn; [reflexivity|].
  rewrite IH. reflexivity.
Qed.

Lemma files_from_contiguous (a : Z) (files : list File) :
  contiguous files -> Forall File_wf files ->
  skipn (search_start (enumerate_from 0 files) a) files
  = filter (fun f => a <? end_idx f) files.
Proof.
  intros Hc Hwf. rewrite search_start_lookup.
  destruct (lookup_contiguous a files 0 Hc Hwf)
    as [(x & k & Hl & Hi & Hk) | (Hl & Hk)]; rewrite Hl.
  - rewrite Hi. exact Hk.
  - rewrite enumerate_from_length, skipn_all, Hk. reflexivity.
Qed.

(** ** The scan of [_get_files_for_range] *)

Lemma StronglySorted_filter {A : Type} (R : A -> A -> Prop)
      (p : A -> bool) (l : list A) :
  StronglySorted R l -> StronglySorted R (filter p l).
Proof.
  induction 1 as [|x l Hs IH Hx]; cbn; [constructor|].
  destruct (p x); [|exact IH]. constructor; [exact IH|].
  rewrite Forall_forall in Hx |- *. intros y Hy.
  apply filter_In in Hy. apply Hx, Hy.
Qed.

Lemma filter_filter {A : Type} (p q : A -> bool) (l : list A) :
  filter p (filter q l) = filter (fun x => q x && p x) l.
Proof.
  induction l as [|x l IH]; cbn; [reflexivity|].
  destruct (q x); cbn; [destruct (p x)|]; rewrite ?IH; reflexivity.
Qed.

(** On a list ordered by first frame, the loop keeps exactly the files that
    start at or before [stop]. *)
Lemma collect_until_sorted (stop : Z) (it : list File) :
  StronglySorted (fun f g => start_idx f < start_idx g) it ->
  forall files,
    collect_until stop it files
    = files ++ filter (fun f => start_idx f <=? stop) it.
Proof.
  induction 1 as [|f it Hs IH Hf]; intros files; cbn.
  - rewrite app_nil_r. reflexivity.
  - destruct (Z_le_gt_dec (start_idx f) stop) as [Hle | Hgt].
    + rewrite (proj2 (Z.leb_le _ _) Hle).
      replace (start_idx f >? stop) with false
        by (symmetry; rewrite Z.gtb_ltb; apply Z.ltb_ge; lia).
      rewrite IH, <- app_assoc. reflexivity.
    + rewrite (proj2 (Z.leb_gt _ _)) by lia.
      replace (start_idx f >? stop) with true
        by (symmetry; rewrite Z.gtb_ltb; apply Z.ltb_lt; lia).
      rewrite filter_none, app_nil_r; [reflexivity|].
      eapply Forall_impl; [|exact Hf]. cbn. intros g Hg.
      apply Z.leb_gt. lia.
Qed.

(** A stretch of a contiguous list is contiguous. *)
Lemma contiguous_filter_overlaps (a b : Z) (files : list File) :
  contiguous files -> Forall File_wf files ->
  contiguous (filter (overlapsb a b) files).
Proof.
  induction files as [|f files IH]; intros Hc Hwf; [exact I|].
  inversion Hwf as [|? ? Hf Hwf']; subst. unfold File_wf in Hf.
  pose proof (contiguous_tail f files Hc) as Hc'.
  specialize (IH Hc' Hwf'). cbn [filter].
  destruct (overlapsb a b f) eqn:Ef; [|exact IH].
  destruct files as [|g files]; [exact I|].
  cbn [filter] in IH |- *. destruct Hc as [Hfg _].
  destruct (overlapsb a b g) eqn:Eg.
  - cbn [contiguous] in IH |- *. split; [exact Hfg | exact IH].
  - (* [g] is out, so every later file is out as well *)
    assert (Hnone : filter (overlapsb a b) files = []).
    { apply filter_none.
      pose proof (contiguous_after g files Hc') as Hafter.
      inversion Hwf' as [|? ? Hg Hwf'']; subst. unfold File_wf in Hg.
      specialize (Hafter Hwf'').
      unfold overlapsb in Ef, Eg |- *.
      apply andb_true_iff in Ef. destruct Ef as [Ef1 Ef2].
      apply Z.ltb_lt in Ef1. apply Z.leb_le in Ef2.
      apply andb_false_iff in Eg.
      assert (Hgb : b < start_idx g).
      { destruct Eg as [Eg | Eg]; [apply Z.ltb_ge in Eg | apply Z.leb_gt in Eg]; lia. }
      eapply Forall_impl; [|exact Hafter]. cbn. intros h Hh.
      apply andb_false_iff. right. apply Z.leb_gt. lia. }
    rewrite Hnone. exact I.
Qed.

Lemma overlapsb_spec (a b : Z) (f : File) :
  File_wf f -> a <= b -> (overlapsb a b f = true <-> overlaps a b f).
Proof.
  unfold File_wf, overlapsb, overlaps, holds_frame. intros Hf Hab.
  rewrite andb_true_iff, Z.ltb_lt, Z.leb_le. split.
  - intros [H1 H2]. exists (Z.max a (start_idx f)). lia.
  - intros (x & Hx & Hx'). lia.
Qed.

Lemma last_nonempty_default {A : Type} (x : A) (l : list A) :
  forall d d', last (x :: l) d = last (x :: l) d'.
Proof.
  revert x. induction l as [|y l IH]; intros x d d'; [reflexivity|].
  change (last (x :: y :: l) d) with (last (y :: l) d).
  change (last (x :: y :: l) d') with (last (y :: l) d').
  apply IH.
Qed.

(** Every frame between the first and the end frame of a contiguous list
    is held by one of its files. *)
Lemma contiguous_covers (files : list File) :
  contiguous files ->
  forall x, first_frame files <= x < end_frame files ->
            exists f, In f files /\ holds_frame f x.
Proof.
  induction files as [|f files IH]; intros Hc x Hx; [cbn in Hx; lia|].
  destruct (Z_lt_le_dec x (end_idx f)) as [Hlt | Hge].
  - exists f. split; [left; reflexivity|]. unfold holds_frame. cbn in Hx. lia.
  - destruct files as [|g files]; [cbn in Hx; lia|].
    destruct Hc as [Hfg Hc].
    destruct (IH Hc x) as (h & Hin & Hh).
    + cbn [first_frame end_frame] in *.
      change (last (f :: g :: files) f) with (last (g :: files) f) in Hx.
      rewrite (last_nonempty_default g files g f). lia.
    + exists h. split; [right; exact Hin | exact Hh].
Qed.

(** What [_get_files_for_range] computes on a contiguous file set. *)
Lemma get_files_for_range_filter
      (files : list File) (fhb ffb : Z) (fs : FileSet) (a b : Z) :
  Forall File_wf files -> contiguous files ->
  FileSet_init files fhb ffb = Ok fs ->
  _get_files_for_range fs a b
  = if (0 <? length (filter (overlapsb a b) files))%nat
    then Ok (filter (overlapsb a b) files)
    else Raise AssertionError.
Proof.
  intros Hwf Hc Hinit. unfold FileSet_init in Hinit.
  assert (Hne : files <> []) by (intros ->; discriminate).
  rewrite (FileTree_make_contiguous files Hne Hwf Hc) in Hinit.
  destruct (0 <? length files)%nat; [|discriminate].
  injection Hinit as <-.
  unfold _get_files_for_range, files_from. cbn [_tree _files].
  rewrite (files_from_contiguous a files Hc Hwf).
  rewrite collect_until_sorted
    by (apply StronglySorted_filter, contiguous_sorted; assumption).
  cbn [app]. rewrite filter_filter. reflexivity.
Qed.

Lemma FileSet_init_contiguous (files : list File) (fhb ffb : Z) :
  files <> [] -> Forall File_wf files -> contiguous files ->
  FileSet_init files fhb ffb
  = Ok (mkFileSet files (enumerate_from 0 files) false fhb ffb).
Proof.
  intros Hne Hwf Hc. unfold FileSet_init.
  rewrite (FileTree_make_contiguous files Hne Hwf Hc).
  destruct files; [contradiction | reflexivity].
Qed.

Lemma FileSet_init_fields (files : list File) (fhb ffb : Z) (fs : FileSet) :
  FileSet_init files fhb ffb = Ok fs ->
  _files fs = files /\ _files_open fs = false
  /\ _frame_header_bytes fs = fhb /\ _frame_footer_bytes fs = ffb.
Proof.
  unfold FileSet_init. destruct (0 <? length files)%nat; [|discriminate].
  destruct (FileTree_make files); [|discriminate].
  intros [= <-]. cbn. tauto.
Qed.

Lemma Forall_filter {A : Type} (P : A -> Prop) (p : A -> bool) (l : list A) :
  Forall P l -> Forall P (filter p l).
Proof.
  rewrite !Forall_forall. intros H x Hx. apply filter_In in Hx. apply H, Hx.
Qed.

(** What [get_for_range] computes on a contiguous file set: the files
    overlapping [[a, b]], in a fresh closed file set, or an assertion failure
    when there are none. *)
Lemma get_for_range_filter
      (files : list File) (fhb ffb : Z) (fs : FileSet) (a b : Z) :
  Forall File_wf files -> contiguous files ->
  FileSet_init files fhb ffb = Ok fs ->
  get_for_range fs a b
  = let sel := filter (overlapsb a b) files in
    if (0 <? length sel)%nat
    then Ok (mkFileSet sel (enumerate_from 0 sel) false fhb ffb)
    else Raise AssertionError.
Proof.
  intros Hwf Hc Hinit. unfold get_for_range.
  rewrite (get_files_for_range_filter files fhb ffb fs a b Hwf Hc Hinit).
  destruct (FileSet_init_fields _ _ _ _ Hinit) as (_ & _ & -> & ->).
  cbv zeta. destruct (0 <? length (filter (overlapsb a b) files))%nat eqn:E;
    [|reflexivity].
  cbn [bind]. unfold _clone. apply FileSet_init_contiguous.
  - intros Hnil. rewrite Hnil in E. discriminate.
  - apply Forall_filter. exact Hwf.
  - apply contiguous_filter_overlaps; assumption.
Qed.

Lemma filter_overlaps_In (files : list File) (a b : Z) :
  Forall File_wf files -> a <= b ->
  forall f, In f (filter (overlapsb a b) files)
            <-> In f files /\ overlaps a b f.
Proof.
  intros Hwf Hab f. rewrite filter_In.
  split; intros [Hin Ho]; split; try assumption;
    (apply overlapsb_spec; [|assumption|assumption]);
    rewrite Forall_forall in Hwf; apply Hwf, Hin.
Qed.

(** The files overlapping a range that begins inside the covered frames. *)
Lemma filter_overlaps_nonempty (files : list File) (a b : Z) :
  Forall File_wf files -> contiguous files -> a <= b ->
  first_frame files <= a < end_frame files ->
  filter (overlapsb a b) files <> [].
Proof.
  intros Hwf Hc Hab Ha Hnil.
  destruct (contiguous_covers files Hc a Ha) as (f & Hin & Hf).
  assert (Hsel : In f (filter (overlapsb a b) files)).
  { apply filter_overlaps_In; try assumption.
    split; [exact Hin|]. exists a. split; [exact Hf | lia]. }
  rewrite Hnil in Hsel. contradiction.
Qed.

(** C2: on a file set built from contiguous, non-overlapping, non-empty
    file ranges, and for [a <= b], [get_for_range a b] returns a file set
    holding exactly the files with a frame in the closed interval [[a, b]],
    in the order of the set (ascending [start_idx]); it is never empty when
    [a] and [b] lie in the covered frame range; and when no file overlaps
    [[a, b]] the call fails on its assertion. *)
Theorem get_for_range_exact
        (files : list File) (fhb ffb : Z) (fs : FileSet) (a b : Z) :
  Forall File_wf files -> contiguous files ->
  FileSet_init files fhb ffb = Ok fs ->
  a <= b ->
  (first_frame files <= a -> b < end_frame files ->
   exists fs',
     get_for_range fs a b = Ok fs'
     /\ _files fs' = filter (overlapsb a b) files
     /\ _files fs' <> []
     /\ (forall f, In f (_files fs') <-> In f files /\ overlaps a b f)
     /\ StronglySorted (fun f g => start_idx f < start_idx g) (_files fs'))
  /\ (forall fs', get_for_range fs a b = Ok fs' ->
        _files fs' <> []
        /\ forall f, In f (_files fs') <-> In f files /\ overlaps a b f)
  /\ ((forall f, In f files -> ~ overlaps a b f) ->
      get_for_range fs a b = Raise AssertionError).
Proof.
  intros Hwf Hc Hinit Hab.
  pose proof (get_for_range_filter files fhb ffb fs a b Hwf Hc Hinit) as Hrun.
  cbv zeta in Hrun.
  pose proof (filter_overlaps_In files a b Hwf Hab) as Hmem.
  split; [|split].
  - intros Hlo Hhi.
    destruct (contiguous_covers files Hc a) as (f & Hin & Hf); [lia|].
    assert (Hsel : In f (filter (overlapsb a b) files)).
    { apply Hmem. split; [exact Hin|]. exists a. split; [exact Hf | lia]. }
    destruct (filter (overlapsb a b) files) as [|g sel] eqn:Esel;
      [contradiction|].
    cbn [length Nat.ltb Nat.leb] in Hrun. eexists. split; [exact Hrun|].
    cbn [_files]. split; [reflexivity|]. split; [discriminate|].
    split; [exact Hmem|].
    rewrite <- Esel. apply StronglySorted_filter, contiguous_sorted; assumption.
  - intros fs' H. rewrite Hrun in H.
    destruct (filter (overlapsb a b) files) as [|g sel] eqn:Esel; [discriminate|].
    cbn [length Nat.ltb Nat.leb] in H. injection H as <-. cbn [_files].
    split; [discriminate | exact Hmem].
  - intros Hnone. rewrite Hrun.
    destruct (filter (overlapsb a b) files) as [|g sel] eqn:Esel; [reflexivity|].
    exfalso. apply (Hnone g); apply Hmem; left; reflexivity.
Qed.

Lemma sample_files_wf : Forall File_wf [file_a; file_b].
Proof. repeat constructor; unfold File_wf; cbn; lia. Qed.

Lemma sample_files_contiguous : contiguous [file_a; file_b].
Proof. cbn. tauto. Qed.

Lemma get_for_range_exact_witness :
  3 <= 6
  /\ first_frame [file_a; file_b] <= 3
  /\ 6 < end_frame [file_a; file_b]
  /\ exists fs', get_for_range fileset_ab 3 6 = Ok fs'
                 /\ _files fs' = [file_a; file_b].
Proof.
  assert (H36 : 3 <= 6) by lia.
  assert (Hlo : first_frame [file_a; file_b] <= 3) by (cbn; lia).
  assert (Hhi : 6 < end_frame [file_a; file_b]) by (cbn; lia).
  repeat (split; [assumption|]).
  destruct (get_for_range_exact [file_a; file_b] 0 0 fileset_ab 3 6
              sample_files_wf sample_files_contiguous eq_refl H36)
    as (Hin & _).
  destruct (Hin Hlo Hhi) as (fs' & E & Ef & _).
  exists fs'. split; [exact E | rewrite Ef; reflexivity].
Defined.

(** ** [Partition] and [BasePartition] construction *)

(** C10: [Partition.__init__] raises [ValueError] for every slice whose
    shape does not have exactly one navigation dimension, and accepts every
    other slice; hence every constructed [Partition], and every constructed
    [BasePartition], has a flat navigation axis. *)
Theorem Partition_init_flat_nav (m : DataSetMeta) (sl : Slice) :
  (nav_dims (shape sl) <> 1%nat ->
   Partition_init m sl = Raise (ValueError NavDimsShouldBeFlat))
  /\ (nav_dims (shape sl) = 1%nat ->
      Partition_init m sl = Ok (mkPartition m sl))
  /\ (forall p, Partition_init m sl = Ok p ->
                nav_dims (shape (slice p)) = 1%nat)
  /\ (forall fileset start_frame num_frames bp,
         BasePartition_init m sl fileset start_frame num_frames = Ok bp ->
         nav_dims (shape (slice (base bp))) = 1%nat).
Proof.
  unfold Partition_init.
  assert (Hp : forall p, Partition_init m sl = Ok p ->
                         nav_dims (shape (slice p)) = 1%nat).
  { unfold Partition_init. intros p.
    destruct (nav_dims (shape sl) =? 1)%nat eqn:E; [|discriminate].
    intros [= <-]. apply Nat.eqb_eq. exact E. }
  split; [|split; [|split]].
  - intros Hne. apply Nat.eqb_neq in Hne. rewrite Hne. reflexivity.
  - intros ->. reflexivity.
  - exact Hp.
  - intros fileset start_frame num_frames bp. unfold BasePartition_init.
    destruct (Partition_init m sl) as [p|e] eqn:Ep; [|discriminate].
    cbn [bind].
    destruct (get_for_range fileset start_frame (start_frame + num_frames - 1));
      [|discriminate].
    cbn [bind]. destruct (num_frames <=? 0); [discriminate|].
    intros [= <-]. cbn [base]. apply Hp. reflexivity.
Qed.

Lemma Partition_init_flat_nav_witness :
  nav_dims (shape (part_slice shape_10_2_2 0 5)) = 1%nat
  /\ Partition_init meta_10_2_2 (part_slice shape_10_2_2 0 5)
     = Ok (mkPartition meta_10_2_2 (part_slice shape_10_2_2 0 5)).
Proof.
  split; [reflexivity|].
  apply (Partition_init_flat_nav meta_10_2_2 (part_slice shape_10_2_2 0 5)).
  reflexivity.
Defined.

Lemma has_frame_in_overlaps (start num : Z) (f : File) :
  has_frame_in start num f <-> overlaps start (start + num - 1) f.
Proof.
  unfold has_frame_in, overlaps.
  split; intros (x & Hx & Hr); exists x; (split; [exact Hx | lia]).
Qed.

(** C5: for a file set of contiguous, non-empty files and [num_frames >= 1],
    the file set stored by [BasePartition.__init__] holds exactly the files
    with a frame in [[start_frame, start_frame + num_frames)]; construction
    succeeds whenever the slice is flat and the frame range lies within the
    frames the set covers. *)
Theorem BasePartition_fileset_exact
        (files : list File) (fhb ffb : Z) (fs : FileSet)
        (m : DataSetMeta) (sl : Slice) (start_frame num_frames : Z) :
  Forall File_wf files -> contiguous files ->
  FileSet_init files fhb ffb = Ok fs ->
  1 <= num_frames ->
  (forall bp,
      BasePartition_init m sl fs start_frame num_frames = Ok bp ->
      _start_frame bp = start_frame /\ _num_frames bp = num_frames
      /\ forall f, In f (_files (_fileset bp))
                   <-> In f files /\ has_frame_in start_frame num_frames f)
  /\ (nav_dims (shape sl) = 1%nat ->
      first_frame files <= start_frame ->
      start_frame + num_frames <= end_frame files ->
      exists bp, BasePartition_init m sl fs start_frame num_frames = Ok bp).
Proof.
  intros Hwf Hc Hinit Hnum.
  assert (Hab : start_frame <= start_frame + num_frames - 1) by lia.
  pose proof (get_for_range_filter files fhb ffb fs
                start_frame (start_frame + num_frames - 1) Hwf Hc Hinit) as Hrun.
  cbv zeta in Hrun.
  pose proof (filter_overlaps_In files _ _ Hwf Hab) as Hmem.
  assert (Hpos : (num_frames <=? 0) = false) by (apply Z.leb_gt; lia).
  split.
  - intros bp. unfold BasePartition_init.
    destruct (Partition_init m sl) as [p|e]; [|discriminate]. cbn [bind].
    rewrite Hrun.
    destruct (0 <? length (filter (overlapsb start_frame
                                     (start_frame + num_frames - 1)) files))%nat;
      [|discriminate].
    cbn [bind]. rewrite Hpos. intros [= <-]. cbn.
    split; [reflexivity|]. split; [reflexivity|].
    intros f. rewrite has_frame_in_overlaps. apply Hmem.
  - intros Hflat Hlo Hhi. unfold BasePartition_init, Partition_init.
    rewrite (proj2 (Nat.eqb_eq _ _) Hflat). cbn [bind]. rewrite Hrun.
    pose proof (filter_overlaps_nonempty files _ _ Hwf Hc Hab
                  ltac:(lia)) as Hne.
    destruct (filter (overlapsb start_frame (start_frame + num_frames - 1)) files);
      [contradiction|].
    cbn [length Nat.ltb Nat.leb bind]. rewrite Hpos. eexists. reflexivity.
Qed.

Lemma BasePartition_fileset_exact_witness :
  1 <= 5
  /\ exists bp,
      BasePartition_init meta_10_2_2 (part_slice shape_10_2_2 5 10)
                         fileset_ab 5 5 = Ok bp
      /\ forall f, In f (_files (_fileset bp))
                   <-> In f [file_a; file_b] /\ has_frame_in 5 5 f.
Proof.
  assert (H15 : 1 <= 5) by lia.
  split; [exact H15|].
  destruct (BasePartition_fileset_exact [file_a; file_b] 0 0 fileset_ab
              meta_10_2_2 (part_slice shape_10_2_2 5 10) 5 5
              sample_files_wf sample_files_contiguous eq_refl H15)
    as (Hexact & Hok).
  destruct Hok as (bp & E); [reflexivity | cbn; lia | cbn; lia |].
  exists bp. split; [exact E|]. apply (Hexact bp E).
Defined.

(** A non-positive frame count never yields a partition ... *)
Lemma BasePartition_init_rejects_nonpositive
      (m : DataSetMeta) (sl : Slice) (fs : FileSet) (start_frame num_frames : Z) :
  num_frames <= 0 ->
  is_ok (BasePartition_init m sl fs start_frame num_frames) = false.
Proof.
  intros Hn. unfold BasePartition_init.
  destruct (Partition_init m sl); [|reflexivity]. cbn [bind].
  destruct (get_for_range fs start_frame (start_frame + num_frames - 1));
    [|reflexivity].
  cbn [bind]. rewrite (proj2 (Z.leb_le _ _) Hn). reflexivity.
Qed.

(** ... but the scan of [get_for_range] runs first: when every file handed
    to it starts after [stop], it keeps none, whatever the lower bound. *)
Lemma collect_until_starts_after (stop : Z) (f : File) (it : list File) :
  stop < start_idx f -> collect_until stop (f :: it) [] = [].
Proof.
  intros H. cbn. rewrite Z.gtb_ltb, (proj2 (Z.ltb_lt _ _) H). reflexivity.
Qed.

(** C4 at [start_frame = 0], [num_frames = 0] on the two sample files:
    the constructor asks for the files of the range [[0, -1]], the scan
    keeps none, and the call fails on the assertion of
    [_get_files_for_range] before the check of [num_frames] is reached. *)
Theorem BasePartition_init_zero_frames :
  BasePartition_init meta_10_2_2 (part_slice shape_10_2_2 0 0) fileset_ab 0 0
  = Raise AssertionError
  /\ BasePartition_init meta_10_2_2 (part_slice shape_10_2_2 0 0) fileset_ab 0 0
     <> Raise (ValueError (InvalidNumberOfFrames 0)).
Proof.
  split; [reflexivity | discriminate].
Qed.

(** ** Scoped opening *)

Lemma open_each_ok (openable : string -> bool) (files : list File) :
  forall u files',
    open_each openable files = (Ok u, files') ->
    all_open files' /\ map descr files' = map descr files.
Proof.
  induction files as [|f files IH]; intros u files' H; cbn in H.
  - injection H as _ <-. split; [constructor | reflexivity].
  - unfold File_open in H. destruct (openable (path f)); [|discriminate].
    destruct (open_each openable files) as [r rest] eqn:E.
    injection H as -> <-. destruct (IH u rest eq_refl) as [Ho Hd].
    split; [constructor; [reflexivity | exact Ho]|].
    cbn [map]. rewrite Hd. reflexivity.
Qed.

Lemma FileSet_exit_closes (fs : FileSet) (exc : option exn) :
  all_closed (_files (FileSet_exit fs exc))
  /\ _files_open (FileSet_exit fs exc) = false
  /\ map descr (_files (FileSet_exit fs exc)) = map descr (_files fs).
Proof.
  unfold FileSet_exit, with_files, all_closed. cbn [_files _files_open].
  split; [|split; [reflexivity|]].
  - rewrite Forall_map. apply Forall_forall. reflexivity.
  - rewrite map_map. reflexivity.
Qed.

Lemma open_each_ok_files (openable : string -> bool) (files : list File) :
  forall u files',
    open_each openable files = (Ok u, files') ->
    files' = map File_opened files.
Proof.
  induction files as [|f files IH]; intros u files' H; cbn in H.
  - injection H as _ <-. reflexivity.
  - unfold File_open in H. destruct (openable (path f)); [|discriminate].
    destruct (open_each openable files) as [r rest] eqn:E.
    injection H as -> <-. rewrite (IH u rest eq_refl). reflexivity.
Qed.

(** C8: a successful [__enter__] opens every file of the set, leaving the
    set with the same files, all open, and marked open; [__exit__] closes
    every file of the set, leaving the set with the same files, all closed,
    and marked closed, whatever exception information it receives; so after
    [with fs: body], once [__enter__] has succeeded, the set is what
    [__exit__] makes of the set the body left: each of its files is closed
    and the set is marked closed, whether the body ended normally or raised,
    and the body's outcome is passed on unchanged. *)
Theorem FileSet_scoped_acquisition
        (openable : string -> bool) (fs : FileSet) :
  (forall fs1,
      FileSet_enter openable fs = (Ok tt, fs1) ->
      _files fs1 = map File_opened (_files fs)
      /\ all_open (_files fs1) /\ _files_open fs1 = true
      /\ map descr (_files fs1) = map descr (_files fs))
  /\ (forall fs2 exc,
         _files (FileSet_exit fs2 exc) = map File_close (_files fs2)
         /\ map descr (_files (FileSet_exit fs2 exc)) = map descr (_files fs2)
         /\ all_closed (_files (FileSet_exit fs2 exc))
         /\ _files_open (FileSet_exit fs2 exc) = false)
  /\ (forall (A : Type) (body : FileSet -> result A * FileSet) fs1,
         FileSet_enter openable fs = (Ok tt, fs1) ->
         fst (with_fileset openable fs body) = fst (body fs1)
         /\ snd (with_fileset openable fs body)
            = FileSet_exit (snd (body fs1)) (exc_info (fst (body fs1)))
         /\ _files (snd (with_fileset openable fs body))
            = map File_close (_files (snd (body fs1)))
         /\ map descr (_files (snd (with_fileset openable fs body)))
            = map descr (_files (snd (body fs1)))
         /\ all_closed (_files (snd (with_fileset openable fs body)))
         /\ _files_open (snd (with_fileset openable fs body)) = false).
Proof.
  split; [|split].
  - intros fs1. unfold FileSet_enter.
    destruct (open_each openable (_files fs)) as [r files'] eqn:E.
    destruct r as [u|e]; [|discriminate]. intros [= <-].
    destruct (open_each_ok openable _ u files' E) as [Ho Hd].
    pose proof (open_each_ok_files openable _ u files' E) as Hf.
    cbn. repeat split; assumption.
  - intros fs2 exc. destruct (FileSet_exit_closes fs2 exc) as (H1 & H2 & H3).
    split; [reflexivity|]. repeat split; assumption.
  - intros A body fs1 Henter. unfold with_fileset. rewrite Henter.
    destruct (body fs1) as [r fs2]. cbn [fst snd].
    destruct (FileSet_exit_closes fs2 (exc_info r)) as (H1 & H2 & H3).
    split; [reflexivity|]. split; [reflexivity|]. split; [reflexivity|].
    repeat split; assumption.
Qed.

Lemma FileSet_scoped_acquisition_witness :
  exists fs1,
    FileSet_enter (fun _ => true) fileset_ab = (Ok tt, fs1)
    /\ _files fs1 = map File_opened [file_a; file_b]
    /\ fst (with_fileset (fun _ => true) fileset_ab failing_body) = Raise IOError
    /\ _files (snd (with_fileset (fun _ => true) fileset_ab failing_body))
       = [file_a; file_b].
Proof.
  destruct (FileSet_scoped_acquisition (fun _ => true) fileset_ab)
    as (Henter & _ & Hwith).
  eexists. split; [reflexivity|].
  split; [apply (Henter _ eq_refl)|].
  destruct (Hwith unit failing_body _ eq_refl) as (Hr & _ & Hf & _).
  split; [exact Hr | rewrite Hf; reflexivity].
Defined.

(** When [__enter__] itself fails, the files opened before the failure stay
    open: [__exit__] is not reached. *)
Example FileSet_enter_failure_keeps_opened :
  let openable := fun p => String.eqb p "a.raw" in
  fst (with_fileset openable fileset_ab failing_body) = Raise IOError
  /\ map is_open (_files (snd (with_fileset openable fileset_ab failing_body)))
     = [true; false].
Proof. split; reflexivity. Qed.

(** ** Read ranges depend on the file descriptions only *)

Section ReadRanges.

Context {io : IOLayer}.

Lemma rows_from_descr (files1 files2 : list File) :
  map descr files1 = map descr files2 ->
  forall i, rows_from i files1 = rows_from i files2.
Proof.
  revert files2. induction files1 as [|f files1 IH];
    intros [|g files2] H i; try discriminate; [reflexivity|].
  cbn in H |- *. injection H as Hp Hs He Hh Hrest.
  rewrite Hs, He, Hh, (IH files2 Hrest). reflexivity.
Qed.

(** C6: [get_read_ranges] is a function of its arguments and of the
    descriptions of the files alone.  Two file sets over the same files
    with the same frame header and footer sizes compile equal requests to
    equal read ranges, whatever their handles and open flags are; in
    particular opening a file set does not change what it compiles. *)
Theorem get_read_ranges_deterministic
        (fs1 fs2 : FileSet) (start_at_frame stop_before_frame : Z)
        (d : dtype) (tiling_scheme : TilingScheme) (roi : ROI) :
  map descr (_files fs1) = map descr (_files fs2) ->
  _frame_header_bytes fs1 = _frame_header_bytes fs2 ->
  _frame_footer_bytes fs1 = _frame_footer_bytes fs2 ->
  get_read_ranges fs1 start_at_frame stop_before_frame d tiling_scheme roi
  = get_read_ranges fs2 start_at_frame stop_before_frame d tiling_scheme roi.
Proof.
  intros Hd Hh Hf. unfold get_read_ranges, get_as_arr.
  rewrite (rows_from_descr _ _ Hd 0), Hh, Hf. reflexivity.
Qed.

Lemma get_read_ranges_after_enter
      (openable : string -> bool) (fs fs1 : FileSet)
      (start_at_frame stop_before_frame : Z)
      (d : dtype) (tiling_scheme : TilingScheme) (roi : ROI) :
  FileSet_enter openable fs = (Ok tt, fs1) ->
  get_read_ranges fs1 start_at_frame stop_before_frame d tiling_scheme roi
  = get_read_ranges fs start_at_frame stop_before_frame d tiling_scheme roi.
Proof.
  intros Henter. unfold FileSet_enter in Henter.
  destruct (open_each openable (_files fs)) as [[u|e] files'] eqn:E;
    [|discriminate].
  injection Henter as <-.
  destruct (open_each_ok openable _ u files' E) as [_ Hd].
  unfold get_read_ranges, get_as_arr. cbn [_files with_files].
  rewrite (rows_from_descr _ _ Hd 0). reflexivity.
Qed.

End ReadRanges.

Lemma get_read_ranges_deterministic_witness :
  map descr (_files (snd (FileSet_enter (fun _ => true) fileset_ab)))
  = map descr (_files fileset_ab)
  /\ get_read_ranges (io := reference_io no_samples)
       (snd (FileSet_enter (fun _ => true) fileset_ab)) 0 10 uint16
       (make_for_shape shape_10_2_2 shape_10_2_2) None
     = get_read_ranges (io := reference_io no_samples)
         fileset_ab 0 10 uint16
         (make_for_shape shape_10_2_2 shape_10_2_2) None.
Proof.
  split; [reflexivity|].
  apply (get_read_ranges_deterministic (io := reference_io no_samples));
    reflexivity.
Defined.

(** ** [PickUDF.merge] *)

Lemma wrap_representable (d : dtype) (x : Z) :
  representable d x -> wrap d x = x.
Proof.
  unfold representable, wrap. destruct (dtype_signed d); intros H.
  - rewrite Z.mod_small by lia. lia.
  - apply Z.mod_small. exact H.
Qed.

Lemma list_Z_eqb_eq (a b : list Z) : list_Z_eqb a b = true <-> a = b.
Proof.
  revert b. induction a as [|x a IH]; intros [|y b]; cbn;
    try (split; [discriminate | discriminate]); [tauto|].
  rewrite andb_true_iff, Z.eqb_eq, IH. split.
  - intros [-> ->]. reflexivity.
  - intros [= -> ->]. tauto.
Qed.


Lemma add_elementwise_length (d : dtype) (xs : list Z) :
  forall ys, length xs = length ys ->
             length (add_elementwise d xs ys) = length xs.
Proof.
  induction xs as [|x xs IH]; intros [|y ys] H; cbn in *; try discriminate;
    [reflexivity|].
  rewrite IH; [reflexivity | lia].
Qed.











(** An all-zero [int16] buffer cannot be merged into a [uint16] buffer. *)
Example merge_signed_into_unsigned_raises :
  merge dest_buffer (mkPickResults (np_zeros [2; 2; 2] int16))
  = Some (Raise UFuncTypeError).
Proof. reflexivity. Qed.

(** ** [get_macrotile] on a partition without selected frames *)

Lemma surviving_frames_none (roi : ROI) (start stop : Z) :
  (forall x, start <= x < stop -> roi_selects roi x = false) ->
  surviving_frames start stop roi = [].
Proof.
  intros H. unfold surviving_frames, frames_between. apply filter_none.
  rewrite Forall_map. apply Forall_forall. intros i Hi.
  apply in_seq in Hi. apply H. lia.
Qed.

(** With the reference I/O layer, a partition none of whose frames the ROI
    selects yields no tile. *)
Lemma get_tiles_reference_empty
      (read : ReadInstr -> list Z) (p : BasePartition)
      (tiling_scheme : TilingScheme) (dest_dtype : dtype) (roi : ROI)
      (rows : list (Z * Z * Z * Z)) :
  get_as_arr (_fileset p) = Ok rows ->
  roi_excludes_partition roi p ->
  get_tiles (io := reference_io read) p tiling_scheme dest_dtype roi = Ok [].
Proof.
  intros Hrows H. unfold get_tiles, _get_read_ranges, get_read_ranges.
  rewrite Hrows. cbn [bind].
  cbn [backend_get_tiles default_get_read_ranges reference_io].
  unfold compile_read_ranges.
  rewrite (surviving_frames_none roi _ _ H). reflexivity.
Qed.

Section MacroTile.

Context {io : IOLayer}.

Lemma get_macrotile_no_tiles (p : BasePartition) (dest_dtype : dtype) (roi : ROI) :
  get_tiles p (make_for_shape (Partition_shape (base p))
                              (meta_shape (meta (base p)))) dest_dtype roi
  = Ok [] ->
  get_macrotile p dest_dtype roi = empty_macrotile p dest_dtype.
Proof.
  intros H. unfold get_macrotile. rewrite H. reflexivity.
Qed.

(** For a partition with a two-dimensional signal the tile of the
    [StopIteration] branch is the zero-frame tile of the partition. *)
Lemma get_macrotile_empty_sig2 (p : BasePartition) (dest_dtype : dtype) (roi : ROI) :
  get_tiles p (make_for_shape (Partition_shape (base p))
                              (meta_shape (meta (base p)))) dest_dtype roi
  = Ok [] ->
  origin (slice (base p)) <> [] ->
  sig_dims (shape (slice (base p))) = 2%nat ->
  exists t, get_macrotile p dest_dtype roi = Ok t /\ zero_frame_tile_of p t.
Proof.
  intros H Ho Hsig. rewrite (get_macrotile_no_tiles p dest_dtype roi H).
  unfold empty_macrotile.
  destruct (origin (slice (base p))) as [|o rest] eqn:Eo; [contradiction|].
  eexists. split; [reflexivity|].
  unfold zero_frame_tile_of, Slice_wf, shape_nav, shape_sig, nav_dims_count.
  cbn [tile_slice tile_data shape origin shape_dims shape_sig_dims
       arr_data np_zeros length hd].
  rewrite Eo, Hsig. unfold sig_dims in Hsig. unfold shape_sig in Hsig.
  unfold nav_dims_count in Hsig. rewrite Hsig.
  replace (S 2 - 2)%nat with 1%nat by lia. cbn.
  repeat split; reflexivity.
Qed.

End MacroTile.

(** C3 at the partition of frames [[5, 10)] of a dataset with a
    one-dimensional signal of four samples, with an ROI that is false
    everywhere: [get_macrotile] returns a tile whose slice has the origin
    [(5, 0, 0)] and the shape [(0, 4)] split with two signal dimensions, that
    is no navigation axis and the signal [(0, 4)], where the claim asks for
    the navigation extent [0], the signal [(4)] and the origin [(5, 0)]. *)
Theorem get_macrotile_empty_one_dimensional_signal :
  roi_excludes_partition all_false_10 partition_5_10_sig4
  /\ BasePartition_init meta_10_4 (part_slice shape_10_4 5 10) fileset_ab 5 5
     = Ok partition_5_10_sig4
  /\ exists t,
      get_macrotile (io := reference_io no_samples)
                    partition_5_10_sig4 uint16 all_false_10 = Ok t
      /\ tile_slice t = mkSlice [5; 0; 0] (mkShape [0; 4] 2)
      /\ shape_nav (shape (tile_slice t)) = []
      /\ shape_sig (shape (tile_slice t)) = [0; 4]
      /\ shape_sig (shape (slice (base partition_5_10_sig4))) = [4]
      /\ ~ zero_frame_tile_of partition_5_10_sig4 t.
Proof.
  split.
  { intros x Hx. cbn in Hx. unfold roi_selects, all_false_10.
    assert (Hlt : (Z.to_nat x < 10)%nat) by lia.
    destruct (Z.to_nat x) as [|[|[|[|[|[|[|[|[|[|n]]]]]]]]]];
      try lia; cbn; apply andb_false_r. }
  split; [reflexivity|].
  eexists. split; [reflexivity|]. cbn.
  repeat (split; [reflexivity|]).
  intros (Hnav & _). discriminate.
Qed.

(** The scenario of the specification: frames [[5, 10)] of a dataset with a
    [2 x 2] signal and an ROI that is false on them.  The macrotile is the
    zero-frame tile. *)
Example get_macrotile_empty_scenario :
  BasePartition_init meta_10_2_2 (part_slice shape_10_2_2 5 10) fileset_ab 5 5
  = Ok partition_5_10
  /\ exists t,
      get_macrotile (io := reference_io no_samples)
                    partition_5_10 uint16 all_false_10 = Ok t
      /\ tile_slice t = mkSlice [5; 0; 0] (mkShape [0; 2; 2] 2)
      /\ zero_frame_tile_of partition_5_10 t.
Proof.
  split; [reflexivity|].
  eexists. split; [reflexivity|]. split; [reflexivity|].
  repeat split; reflexivity.
Qed.

(** * Further properties *)

(** ** The slices [make_slices] yields *)

Lemma make_slices_loop_slices (sh : Shape) (n f : Z) :
  forall (fuel : nat) (c0 c1 : Z) l,
    make_slices_loop fuel sh n f c0 c1 = Some l ->
    Forall (fun i => item_slice i = part_slice sh (item_start i) (item_stop i)) l.
Proof.
  induction fuel as [|fuel IH]; intros c0 c1 l H; [discriminate|].
  cbn [make_slices_loop] in H. destruct (c0 >=? n).
  - injection H as <-. constructor.
  - destruct (make_slices_loop fuel sh n f (c0 + f) (c1 + f)) as [rest|] eqn:E;
      [|discriminate].
    injection H as <-. constructor; [reflexivity | exact (IH _ _ _ E)].
Qed.

Lemma part_slice_nav_count (sh : Shape) (a b : Z) :
  nav_dims_count (shape (part_slice sh a b)) = 1%nat.
Proof.
  unfold nav_dims_count, part_slice, sig_dims.
  cbn [shape shape_dims shape_sig_dims length]. lia.
Qed.

Lemma part_slice_geometry (sh : Shape) (a b : Z) :
  shape_nav (shape (part_slice sh a b)) = [b - a]
  /\ shape_sig (shape (part_slice sh a b)) = shape_sig sh
  /\ nav_dims (shape (part_slice sh a b)) = 1%nat
  /\ Slice_wf (part_slice sh a b)
  /\ flatten_nav (shape (part_slice sh a b)) = shape (part_slice sh a b).
Proof.
  assert (Hnav : shape_nav (shape (part_slice sh a b)) = [b - a]).
  { unfold shape_nav. rewrite part_slice_nav_count. reflexivity. }
  assert (Hsig : shape_sig (shape (part_slice sh a b)) = shape_sig sh).
  { unfold shape_sig at 1. rewrite part_slice_nav_count. reflexivity. }
  split; [exact Hnav|]. split; [exact Hsig|].
  split; [unfold nav_dims; rewrite Hnav; reflexivity|].
  split.
  - unfold Slice_wf, part_slice, sig_dims. cbn [origin shape shape_dims length].
    rewrite repeat_length. reflexivity.
  - unfold flatten_nav, nav_size, sig_dims. rewrite Hnav, Hsig.
    cbn [prod_Z fold_right]. rewrite Z.mul_1_r. reflexivity.
Qed.

(** Every slice [make_slices] yields has one navigation axis whose extent is
    the number of frames of its range, the signal of the dataset, the origin
    at the first frame of its range with one coordinate per axis; so
    [Partition.__init__] accepts it, and the [shape] property of the
    partition is the shape of the slice. *)
Theorem make_slices_slices_accepted (sh : Shape) (k : Z) (l : list item) :
  make_slices sh k = Some (Ok l) ->
  Forall (fun it =>
            shape_nav (shape (item_slice it)) = [item_stop it - item_start it]
            /\ shape_sig (shape (item_slice it)) = shape_sig sh
            /\ origin (item_slice it) = item_start it :: repeat 0 (sig_dims sh)
            /\ Slice_wf (item_slice it)
            /\ forall m,
                Partition_init m (item_slice it) = Ok (mkPartition m (item_slice it))
                /\ Partition_shape (mkPartition m (item_slice it))
                   = shape (item_slice it)) l.
Proof.
  unfold make_slices, make_slices_fuel. destruct (k =? 0); [discriminate|].
  destruct (make_slices_loop _ sh _ _ 0 _) as [l'|] eqn:E; [|discriminate].
  cbn [option_map]. intros [= <-].
  eapply Forall_impl; [|exact (make_slices_loop_slices _ _ _ _ _ _ _ E)].
  intros it Hit. cbv beta in Hit. rewrite Hit.
  destruct (part_slice_geometry sh (item_start it) (item_stop it))
    as (Hnav & Hsig & Hflat & Hwf & Hfl).
  repeat split; try assumption.
  - unfold Partition_init. rewrite Hflat. reflexivity.
Qed.

Lemma make_slices_slices_accepted_witness :
  exists l, make_slices shape_10_2_2 3 = Some (Ok l)
            /\ Forall (fun it => Slice_wf (item_slice it)) l.
Proof.
  eexists. split; [vm_compute; reflexivity|].
  eapply Forall_impl;
    [|exact (make_slices_slices_accepted shape_10_2_2 3 _ eq_refl)].
  intros it H. apply H.
Defined.

Lemma make_slices_slices_flat (sh : Shape) (k : Z) (l : list item) :
  make_slices sh k = Some (Ok l) ->
  Forall (fun it => nav_dims (shape (item_slice it)) = 1%nat) l.
Proof.
  unfold make_slices, make_slices_fuel. destruct (k =? 0); [discriminate|].
  destruct (make_slices_loop _ sh _ _ 0 _) as [l'|] eqn:E; [|discriminate].
  cbn [option_map]. intros [= <-].
  eapply Forall_impl; [|exact (make_slices_loop_slices _ _ _ _ _ _ _ E)].
  intros it Hit. cbv beta in Hit. rewrite Hit.
  apply part_slice_geometry.
Qed.

(** [make_slices] completes for every non-zero partition count. *)
Lemma make_slices_ok (sh : Shape) (k : Z) :
  k <> 0 -> 0 <= nav_size sh ->
  exists l,
    make_slices sh k = Some (Ok l)
    /\ tiles_from 0 (nav_size sh) (ranges l)
    /\ only_last_smaller (f_per_part (nav_size sh) k) (ranges l)
    /\ Z.of_nat (length l)
       = (nav_size sh + f_per_part (nav_size sh) k - 1) / f_per_part (nav_size sh) k.
Proof.
  intros Hk Hn. unfold make_slices, make_slices_fuel.
  rewrite (proj2 (Z.eqb_neq _ _) Hk).
  set (n := nav_size sh) in *. set (f := f_per_part n k).
  assert (Hf : 0 < f) by (unfold f, f_per_part; lia).
  destruct (make_slices_loop_spec sh n f Hf (S (Z.to_nat n)) 0)
    as (l & Hrun & Ht & Hs & Hl & _); try lia.
  cbn [Z.add] in Hrun. rewrite Hrun. exists l.
  rewrite Z.min_l in Ht by lia.
  replace (n - 0 + f - 1) with (n + f - 1) in Hl by lia.
  repeat split; assumption.
Qed.

(** ** More partitions than frames *)

Lemma one_frame_tiles (rs : list (Z * Z)) :
  forall lo hi,
    0 <= lo -> tiles_from lo hi rs -> only_last_smaller 1 rs ->
    rs = map (fun i => (lo + Z.of_nat i, lo + Z.of_nat i + 1))
             (seq 0 (Z.to_nat (hi - lo))).
Proof.
  induction rs as [|[a b] rs IH]; intros lo hi Hlo Ht Hs.
  - cbn in Ht. subst hi. rewrite Z.sub_diag. reflexivity.
  - cbn [tiles_from] in Ht. destruct Ht as (-> & Hab & Hrest).
    pose proof (tiles_from_le _ _ _ Hrest) as Hle.
    assert (Hb : b = lo + 1).
    { destruct rs as [|[a' b'] rs']; cbn in Hs; lia. }
    subst b.
    assert (Hs' : only_last_smaller 1 rs).
    { destruct rs as [|[a' b'] rs']; [exact I | exact (proj2 Hs)]. }
    rewrite (IH (lo + 1) hi ltac:(lia) Hrest Hs').
    replace (Z.to_nat (hi - lo)) with (S (Z.to_nat (hi - (lo + 1)))) by lia.
    cbn [seq map]. rewrite <- seq_shift, map_map.
    f_equal; [f_equal; lia|].
    apply map_ext. intros i. f_equal; lia.
Qed.

(** When more partitions are requested than there are frames, or a negative
    number of them, every frame becomes a range of its own. *)
Theorem make_slices_one_frame_each (sh : Shape) (k : Z) :
  0 <= nav_size sh -> k < 0 \/ nav_size sh < k ->
  exists l,
    make_slices sh k = Some (Ok l)
    /\ ranges l = one_frame_ranges (nav_size sh).
Proof.
  intros Hn Hk.
  destruct (make_slices_ok sh k ltac:(lia) Hn) as (l & Hrun & Ht & Hs & _).
  exists l. split; [exact Hrun|].
  assert (Hf : f_per_part (nav_size sh) k = 1).
  { unfold f_per_part. destruct Hk as [Hk | Hk].
    - pose proof (Z.div_mod (nav_size sh) k ltac:(lia)) as Hdm.
      pose proof (Z.mod_neg_bound (nav_size sh) k Hk) as Hr.
      assert (nav_size sh / k <= 0) by nia. lia.
    - rewrite Z.div_small by lia. lia. }
  rewrite Hf in Hs.
  rewrite (one_frame_tiles _ 0 (nav_size sh) ltac:(lia) Ht Hs).
  unfold one_frame_ranges. rewrite Z.sub_0_r.
  apply map_ext. intros i. f_equal; lia.
Qed.

Lemma make_slices_one_frame_each_witness :
  0 <= nav_size shape_10_2_2
  /\ (12 < 0 \/ nav_size shape_10_2_2 < 12)
  /\ exists l, make_slices shape_10_2_2 12 = Some (Ok l)
               /\ ranges l = one_frame_ranges 10.
Proof.
  assert (Hn : 0 <= nav_size shape_10_2_2) by (vm_compute; discriminate).
  assert (Hk : 12 < 0 \/ nav_size shape_10_2_2 < 12) by (right; reflexivity).
  split; [exact Hn|]. split; [exact Hk|].
  exact (make_slices_one_frame_each shape_10_2_2 12 Hn Hk).
Defined.

(** ** The outcome of [BasePartition.__init__] *)

(** On a file set of contiguous files the constructor goes through three
    checks in this order: the navigation axis of the slice, the files found
    for the closed range [[start_frame, start_frame + num_frames - 1]], and
    the sign of [num_frames]. *)
Lemma BasePartition_init_outcome
      (files : list File) (fhb ffb : Z) (fs : FileSet)
      (m : DataSetMeta) (sl : Slice) (start_frame num_frames : Z) :
  Forall File_wf files -> contiguous files ->
  FileSet_init files fhb ffb = Ok fs ->
  BasePartition_init m sl fs start_frame num_frames
  = if (nav_dims (shape sl) =? 1)%nat then
      let sel := filter (overlapsb start_frame (start_frame + num_frames - 1))
                        files in
      if (0 <? length sel)%nat then
        if num_frames <=? 0
        then Raise (ValueError (InvalidNumberOfFrames num_frames))
        else Ok (mkBasePartition
                   (mkPartition m sl)
                   (mkFileSet sel (enumerate_from 0 sel) false fhb ffb)
                   start_frame num_frames)
      else Raise AssertionError
    else Raise (ValueError NavDimsShouldBeFlat).
Proof.
  intros Hwf Hc Hinit. unfold BasePartition_init, Partition_init.
  destruct (nav_dims (shape sl) =? 1)%nat; [|reflexivity]. cbn [bind].
  rewrite (get_for_range_filter files fhb ffb fs _ _ Hwf Hc Hinit). cbv zeta.
  destruct (0 <? length _)%nat; reflexivity.
Qed.

(** Which exception a non-positive frame count gets: the [ValueError] for
    the frame count when some file starts at or before
    [start_frame + num_frames - 1] and ends after [start_frame], and the
    assertion failure of [_get_files_for_range] when no file does. *)
Theorem BasePartition_init_nonpositive_error
        (files : list File) (fhb ffb : Z) (fs : FileSet)
        (m : DataSetMeta) (sl : Slice) (start_frame num_frames : Z) :
  Forall File_wf files -> contiguous files ->
  FileSet_init files fhb ffb = Ok fs ->
  nav_dims (shape sl) = 1%nat ->
  num_frames <= 0 ->
  ((exists f, In f files
              /\ start_idx f <= start_frame + num_frames - 1
              /\ start_frame < end_idx f) ->
   BasePartition_init m sl fs start_frame num_frames
   = Raise (ValueError (InvalidNumberOfFrames num_frames)))
  /\ ((forall f, In f files ->
                 ~ (start_idx f <= start_frame + num_frames - 1
                    /\ start_frame < end_idx f)) ->
      BasePartition_init m sl fs start_frame num_frames = Raise AssertionError).
Proof.
  intros Hwf Hc Hinit Hflat Hn.
  rewrite (BasePartition_init_outcome files fhb ffb fs m sl _ _ Hwf Hc Hinit).
  rewrite (proj2 (Nat.eqb_eq _ _) Hflat). cbv zeta.
  rewrite (proj2 (Z.leb_le _ _) Hn).
  set (sel := filter _ files).
  assert (Hmem : forall f, In f sel
                           <-> In f files
                               /\ start_idx f <= start_frame + num_frames - 1
                               /\ start_frame < end_idx f).
  { intros f. unfold sel. rewrite filter_In. unfold overlapsb.
    rewrite andb_true_iff, Z.ltb_lt, Z.leb_le. tauto. }
  split.
  - intros (f & Hf). apply Hmem in Hf.
    destruct sel; [contradiction | reflexivity].
  - intros Hnone. destruct sel as [|g sel']; [reflexivity|].
    exfalso. apply (Hnone g); apply (Hmem g); left; reflexivity.
Qed.

Lemma BasePartition_init_nonpositive_error_witness :
  BasePartition_init meta_10_2_2 (part_slice shape_10_2_2 7 7) fileset_ab 7 0
  = Raise (ValueError (InvalidNumberOfFrames 0))
  /\ BasePartition_init meta_10_2_2 (part_slice shape_10_2_2 5 5) fileset_ab 5 0
     = Raise AssertionError.
Proof.
  split.
  - apply (BasePartition_init_nonpositive_error [file_a; file_b] 0 0 fileset_ab
             meta_10_2_2 (part_slice shape_10_2_2 7 7) 7 0
             sample_files_wf sample_files_contiguous eq_refl eq_refl).
    + lia.
    + exists file_b. cbn. split; [right; left; reflexivity | lia].
  - apply (BasePartition_init_nonpositive_error [file_a; file_b] 0 0 fileset_ab
             meta_10_2_2 (part_slice shape_10_2_2 5 5) 5 0
             sample_files_wf sample_files_contiguous eq_refl eq_refl).
    + lia.
    + intros f [<- | [<- | []]]; cbn; lia.
Defined.

(** ** Partitions made from the slices of [make_slices] *)

(** Every file of a contiguous list lies between its first and end frame. *)
Lemma contiguous_bounds (files : list File) :
  contiguous files -> Forall File_wf files ->
  Forall (fun f => first_frame files <= start_idx f
                   /\ end_idx f <= end_frame files) files.
Proof.
  induction files as [|f files IH]; intros Hc Hwf; [constructor|].
  inversion Hwf as [|? ? Hf Hwf']; subst. unfold File_wf in Hf.
  destruct files as [|g files].
  - constructor; [cbn; lia | constructor].
  - pose proof Hc as [Hfg Hc'].
    specialize (IH Hc' Hwf').
    assert (He : end_frame (f :: g :: files) = end_frame (g :: files)).
    { cbn [end_frame].
      change (last (f :: g :: files) f) with (last (g :: files) f).
      rewrite (last_nonempty_default g files f g). reflexivity. }
    rewrite He. cbn [first_frame] in IH |- *.
    constructor.
    + inversion IH as [|? ? [_ Hg] _]; subst.
      inversion Hwf' as [|? ? Hgwf _]; subst. unfold File_wf in Hgwf. lia.
    + eapply Forall_impl; [|exact IH]. cbn. intros h [Hh1 Hh2]. lia.
Qed.

(** A dataset opens its partitions by handing every item of [make_slices]
    to [BasePartition].  On a file set whose contiguous files hold the frames
    [[0, num_frames)] every yielded item constructs a partition, the file set
    of each partition holds exactly the files with a frame in its range, and
    every file of the dataset belongs to the file set of some partition. *)
Theorem make_slices_partitions_constructible
        (files : list File) (fhb ffb : Z) (fs : FileSet)
        (m : DataSetMeta) (sh : Shape) (k : Z) :
  Forall File_wf files -> contiguous files ->
  FileSet_init files fhb ffb = Ok fs ->
  first_frame files = 0 -> end_frame files = nav_size sh ->
  k <> 0 ->
  exists l,
    make_slices sh k = Some (Ok l)
    /\ Forall (fun it =>
                 exists bp,
                   BasePartition_init m (item_slice it) fs (item_start it)
                                      (item_stop it - item_start it) = Ok bp
                   /\ _num_frames bp = item_stop it - item_start it
                   /\ forall f, In f (_files (_fileset bp))
                                <-> In f files
                                    /\ has_frame_in (item_start it)
                                         (item_stop it - item_start it) f) l
    /\ (forall f, In f files ->
          exists it bp,
            In it l
            /\ BasePartition_init m (item_slice it) fs (item_start it)
                                  (item_stop it - item_start it) = Ok bp
            /\ In f (_files (_fileset bp))).
Proof.
  intros Hwf Hc Hinit Hfirst Hend Hk.
  pose proof (contiguous_bounds files Hc Hwf) as Hb.
  assert (Hne : files <> []) by (intros ->; discriminate).
  assert (Hn : 0 <= nav_size sh).
  { destruct files as [|f0 files0]; [contradiction|].
    inversion Hb as [|? ? [H1 H2] _]; subst.
    inversion Hwf as [|? ? Hf0 _]; subst. unfold File_wf in Hf0. lia. }
  destruct (make_slices_ok sh k Hk Hn) as (l & Hrun & Ht & _).
  exists l. split; [exact Hrun|].
  pose proof (make_slices_slices_flat sh k l Hrun) as Hflat.
  assert (Hitem : forall it, In it l ->
            exists bp,
              BasePartition_init m (item_slice it) fs (item_start it)
                                 (item_stop it - item_start it) = Ok bp
              /\ _num_frames bp = item_stop it - item_start it
              /\ forall f, In f (_files (_fileset bp))
                           <-> In f files
                               /\ has_frame_in (item_start it)
                                    (item_stop it - item_start it) f).
  { intros it Hit.
    assert (Hr : In (item_start it, item_stop it) (ranges l)).
    { unfold ranges. apply in_map_iff. exists it. split; [reflexivity | exact Hit]. }
    destruct (tiles_from_bounds _ _ _ Ht _ Hr) as (H0 & Hlt & Hhi).
    cbn [fst snd] in H0, Hlt, Hhi.
    rewrite Forall_forall in Hflat. specialize (Hflat it Hit).
    rewrite (BasePartition_init_outcome files fhb ffb fs m _ _ _ Hwf Hc Hinit).
    rewrite (proj2 (Nat.eqb_eq _ _) Hflat). cbv zeta.
    replace (item_start it + (item_stop it - item_start it) - 1)
      with (item_stop it - 1) by lia.
    pose proof (filter_overlaps_nonempty files (item_start it) (item_stop it - 1)
                  Hwf Hc ltac:(lia) ltac:(lia)) as Hsel.
    pose proof (filter_overlaps_In files (item_start it) (item_stop it - 1)
                  Hwf ltac:(lia)) as Hmem.
    destruct (filter (overlapsb (item_start it) (item_stop it - 1)) files)
      as [|g sel] eqn:Esel; [contradiction|].
    cbn [length Nat.ltb Nat.leb].
    rewrite (proj2 (Z.leb_gt _ _)) by lia.
    eexists. split; [reflexivity|]. cbn [_num_frames _fileset _files].
    split; [reflexivity|].
    intros f. rewrite has_frame_in_overlaps.
    replace (item_start it + (item_stop it - item_start it) - 1)
      with (item_stop it - 1) by lia.
    apply Hmem. }
  split.
  - apply Forall_forall. exact Hitem.
  - intros f Hf.
    rewrite Forall_forall in Hb, Hwf.
    destruct (Hb f Hf) as [Hlo Hhi]. pose proof (Hwf f Hf) as Hfwf.
    unfold File_wf in Hfwf.
    destruct (proj1 (tiles_from_cover _ _ _ Ht (start_idx f)) ltac:(lia))
      as ([a b] & Hr & Hx).
    cbn [fst snd] in Hx.
    unfold ranges in Hr. apply in_map_iff in Hr.
    destruct Hr as (it & Heq & Hit). injection Heq as <- <-.
    destruct (Hitem it Hit) as (bp & E & _ & Hmem).
    exists it, bp. split; [exact Hit|]. split; [exact E|].
    apply Hmem. split; [exact Hf|].
    exists (start_idx f). unfold holds_frame. lia.
Qed.

Lemma make_slices_partitions_constructible_witness :
  exists l,
    make_slices shape_10_2_2 3 = Some (Ok l)
    /\ forall f, In f [file_a; file_b] ->
         exists it bp,
           In it l
           /\ BasePartition_init meta_10_2_2 (item_slice it) fileset_ab
                (item_start it) (item_stop it - item_start it) = Ok bp
           /\ In f (_files (_fileset bp)).
Proof.
  destruct (make_slices_partitions_constructible
              [file_a; file_b] 0 0 fileset_ab meta_10_2_2 shape_10_2_2 3
              sample_files_wf sample_files_contiguous eq_refl eq_refl eq_refl)
    as (l & Hrun & _ & Hcover).
  - discriminate.
  - exists l. split; [exact Hrun | exact Hcover].
Defined.

(** ** [files_from] *)

(** On a file set of contiguous files, [files_from(start)] runs through the
    files that end after [start], in order: they are a tail of the file list,
    all of it when [start] lies before the first frame and nothing when
    [start] is at or past the end frame. *)
Theorem files_from_tail
        (files : list File) (fhb ffb : Z) (fs : FileSet) (start : Z) :
  Forall File_wf files -> contiguous files ->
  FileSet_init files fhb ffb = Ok fs ->
  files_from fs start = filter (fun f => start <? end_idx f) files
  /\ (exists skipped,
         files = skipped ++ files_from fs start
         /\ Forall (fun f => end_idx f <= start) skipped)
  /\ (start < first_frame files -> files_from fs start = files)
  /\ (end_frame files <= start -> files_from fs start = []).
Proof.
  intros Hwf Hc Hinit.
  assert (Hne : files <> []) by (intros ->; discriminate).
  assert (Hfs : fs = mkFileSet files (enumerate_from 0 files) false fhb ffb).
  { rewrite (FileSet_init_contiguous files fhb ffb Hne Hwf Hc) in Hinit.
    injection Hinit as <-. reflexivity. }
  assert (Heq : files_from fs start = filter (fun f => start <? end_idx f) files).
  { subst fs. unfold files_from. cbn [_tree _files].
    apply files_from_contiguous; assumption. }
  pose proof (contiguous_bounds files Hc Hwf) as Hb.
  split; [exact Heq|]. split; [|split].
  - subst fs. unfold files_from in *. cbn [_tree _files] in *.
    set (k := search_start (enumerate_from 0 files) start) in *.
    exists (firstn k files). split; [symmetry; apply firstn_skipn|].
    (* the files skipped are not among those kept *)
    pose proof (contiguous_sorted files Hc Hwf) as Hs.
    rewrite <- (firstn_skipn k files) in Hs, Hwf.
    apply Forall_app in Hwf. destruct Hwf as [Hwf1 Hwf2].
    rewrite Forall_forall. intros f Hf.
    destruct (Z_le_gt_dec (end_idx f) start) as [Hle | Hgt]; [exact Hle|].
    exfalso.
    assert (Hin : In f (skipn k files)).
    { rewrite Heq. apply filter_In. split.
      - rewrite <- (firstn_skipn k files). apply in_or_app. left. exact Hf.
      - apply Z.ltb_lt. lia. }
    clear - Hs Hf Hin.
    induction (firstn k files) as [|g pre IH]; [contradiction|].
    cbn [app] in Hs. inversion Hs as [|? ? Hs' Hg]; subst.
    destruct Hf as [-> | Hf]; [|exact (IH Hs' Hf)].
    rewrite Forall_forall in Hg.
    specialize (Hg f (in_or_app _ _ _ (or_intror Hin))). lia.
  - intros Hlow. rewrite Heq. apply filter_all.
    eapply Forall_impl; [|exact (Forall_and Hb Hwf)].
    cbn. intros f [[H1 _] H2]. unfold File_wf in H2. apply Z.ltb_lt. lia.
  - intros Hhigh. rewrite Heq. apply filter_none.
    eapply Forall_impl; [|exact Hb].
    cbn. intros f [_ H2]. apply Z.ltb_ge. lia.
Qed.

Lemma files_from_tail_witness :
  files_from fileset_ab 7 = [file_b]
  /\ files_from fileset_ab (-3) = [file_a; file_b]
  /\ files_from fileset_ab 10 = [].
Proof.
  destruct (files_from_tail [file_a; file_b] 0 0 fileset_ab 7
              sample_files_wf sample_files_contiguous eq_refl) as (H7 & _).
  destruct (files_from_tail [file_a; file_b] 0 0 fileset_ab (-3)
              sample_files_wf sample_files_contiguous eq_refl) as (_ & _ & Hlo & _).
  destruct (files_from_tail [file_a; file_b] 0 0 fileset_ab 10
              sample_files_wf sample_files_contiguous eq_refl) as (_ & _ & _ & Hhi).
  split; [rewrite H7; reflexivity|].
  split; [apply Hlo; cbn; lia | apply Hhi; cbn; lia].
Defined.

(** ** Restricting a file set twice *)

(** The file set [get_for_range] returns is again a file set of contiguous
    files, built the way [FileSet.__init__] builds it; and restricting it
    further to a range inside the first one gives what restricting the
    original set to that range gives. *)
Theorem get_for_range_nested
        (files : list File) (fhb ffb : Z) (fs fs1 : FileSet) (a b c d : Z) :
  Forall File_wf files -> contiguous files ->
  FileSet_init files fhb ffb = Ok fs ->
  get_for_range fs a b = Ok fs1 ->
  Forall File_wf (_files fs1)
  /\ contiguous (_files fs1)
  /\ FileSet_init (_files fs1) fhb ffb = Ok fs1
  /\ (a <= c -> d <= b -> get_for_range fs1 c d = get_for_range fs c d).
Proof.
  intros Hwf Hc Hinit Hrun.
  rewrite (get_for_range_filter files fhb ffb fs a b Hwf Hc Hinit) in Hrun.
  cbv zeta in Hrun.
  set (sel := filter (overlapsb a b) files) in *.
  assert (Hwf1 : Forall File_wf sel) by (apply Forall_filter; exact Hwf).
  assert (Hc1 : contiguous sel)
    by (apply contiguous_filter_overlaps; assumption).
  destruct (0 <? length sel)%nat eqn:Elen; [|discriminate].
  injection Hrun as <-. cbn [_files].
  assert (Hne : sel <> []).
  { intros Hnil. rewrite Hnil in Elen. discriminate. }
  pose proof (FileSet_init_contiguous sel fhb ffb Hne Hwf1 Hc1) as Hinit1.
  split; [exact Hwf1|]. split; [exact Hc1|]. split; [exact Hinit1|].
  intros Hac Hdb.
  rewrite (get_for_range_filter sel fhb ffb _ c d Hwf1 Hc1 Hinit1).
  rewrite (get_for_range_filter files fhb ffb fs c d Hwf Hc Hinit).
  assert (E : filter (overlapsb c d) sel = filter (overlapsb c d) files).
  { unfold sel. rewrite filter_filter. apply filter_ext. intros f.
    unfold overlapsb.
    destruct (c <? end_idx f) eqn:E1; [|apply andb_false_r].
    destruct (start_idx f <=? d) eqn:E2; [|apply andb_false_r].
    apply Z.ltb_lt in E1. apply Z.leb_le in E2.
    rewrite (proj2 (Z.ltb_lt a (end_idx f))) by lia.
    rewrite (proj2 (Z.leb_le (start_idx f) b)) by lia. reflexivity. }
  cbv zeta. rewrite E. reflexivity.
Qed.

Lemma get_for_range_nested_witness :
  exists fs1,
    get_for_range fileset_ab 2 8 = Ok fs1
    /\ get_for_range fs1 6 7 = get_for_range fileset_ab 6 7.
Proof.
  eexists. split; [reflexivity|].
  apply (get_for_range_nested [file_a; file_b] 0 0 fileset_ab _ 2 8 6 7
           sample_files_wf sample_files_contiguous eq_refl eq_refl); lia.
Defined.

(** ** The array view of a file set *)

Lemma rows_from_ok (files : list File) :
  forall i,
    Forall (fun f => fits_int64 f = true) files ->
    - 2 ^ 63 <= i -> i + Z.of_nat (length files) <= 2 ^ 63 ->
    exists rows,
      rows_from i files = Ok rows
      /\ length rows = length files
      /\ forall k f,
          nth_error files k = Some f ->
          nth_error rows k
          = Some (start_idx f, end_idx f, i + Z.of_nat k, file_header_bytes f).
Proof.
  induction files as [|g files IH]; intros i Hfit Hlo Hhi.
  - exists []. split; [reflexivity|]. split; [reflexivity|].
    intros [|k] f H; discriminate.
  - inversion Hfit as [|? ? Hg Hfit']; subst.
    cbn [length] in Hhi.
    destruct (IH (i + 1) Hfit' ltac:(lia) ltac:(lia)) as (rows & E & Hlen & Hnth).
    unfold fits_int64 in Hg. apply andb_true_iff in Hg. destruct Hg as [Hg Hh].
    assert (Hi : in_int64 i = true).
    { unfold in_int64. apply andb_true_iff. split; [apply Z.leb_le | apply Z.ltb_lt]; lia. }
    cbn [rows_from]. rewrite Hg, Hi, Hh, E. cbn [andb bind].
    eexists. split; [reflexivity|]. split; [cbn; rewrite Hlen; reflexivity|].
    intros [|k] f H; cbn in H.
    + injection H as ->. cbn. rewrite Z.add_0_r. reflexivity.
    + cbn [nth_error]. rewrite (Hnth k f H).
      replace (i + 1 + Z.of_nat k) with (i + Z.of_nat (S k)) by lia.
      reflexivity.
Qed.

Lemma rows_from_overflow (files : list File) :
  forall i,
    Exists (fun f => fits_int64 f = false) files ->
    rows_from i files = Raise OverflowError.
Proof.
  induction files as [|g files IH]; intros i H; [inversion H|].
  cbn [rows_from].
  destruct (in_int64 (start_idx g) && in_int64 (end_idx g) && in_int64 i
            && in_int64 (file_header_bytes g)) eqn:E; [|reflexivity].
  inversion H as [? ? Hg | ? ? Hrest]; subst.
  - exfalso. unfold fits_int64 in Hg.
    apply andb_true_iff in E. destruct E as [E Hh].
    apply andb_true_iff in E. destruct E as [E _].
    rewrite E, Hh in Hg. discriminate.
  - rewrite (IH (i + 1) Hrest). reflexivity.
Qed.

(** When the frame ranges and header sizes of all files fit into
    [np.int64], [get_as_arr] returns one row per file of the set: row [i]
    holds the frame range and header size of the file [__getitem__(i)]
    returns, and [i] itself in the index column.  When a file has a value
    that does not fit, [get_as_arr] raises [OverflowError].  [__getitem__]
    accepts the indices from [-len] to [len - 1], a negative one counting
    from the end, and raises [IndexError] for every other. *)
Theorem get_as_arr_rows (fs : FileSet) :
  (Forall (fun f => fits_int64 f = true) (_files fs) ->
   FileSet_len fs <= 2 ^ 63 ->
   exists rows,
     get_as_arr fs = Ok rows
     /\ Z.of_nat (length rows) = FileSet_len fs
     /\ forall i, 0 <= i < FileSet_len fs ->
          exists f,
            FileSet_getitem fs i = Ok f
            /\ FileSet_getitem fs (i - FileSet_len fs) = Ok f
            /\ In f (FileSet_iter fs)
            /\ nth_error rows (Z.to_nat i)
               = Some (start_idx f, end_idx f, i, file_header_bytes f))
  /\ (Exists (fun f => fits_int64 f = false) (_files fs) ->
      get_as_arr fs = Raise OverflowError)
  /\ (forall i, i < - FileSet_len fs \/ FileSet_len fs <= i ->
        FileSet_getitem fs i = Raise IndexError).
Proof.
  unfold get_as_arr, FileSet_len, FileSet_iter.
  split; [|split].
  - intros Hfit Hlen.
    destruct (rows_from_ok (_files fs) 0 Hfit ltac:(lia) ltac:(lia))
      as (rows & E & Hl & Hnth).
    exists rows. split; [exact E|]. split; [rewrite Hl; reflexivity|].
    intros i Hi.
    destruct (nth_error (_files fs) (Z.to_nat i)) as [f|] eqn:En.
    2:{ apply nth_error_None in En. lia. }
    exists f.
    assert (Hget : forall j, (if j <? 0 then j + Z.of_nat (length (_files fs)) else j) = i ->
                             FileSet_getitem fs j = Ok f).
    { intros j Hj. unfold FileSet_getitem, FileSet_len. cbv zeta. rewrite Hj.
      rewrite (proj2 (Z.leb_le 0 i)) by lia.
      rewrite (proj2 (Z.ltb_lt i _)) by lia. cbn [andb]. rewrite En. reflexivity. }
    split; [apply Hget; rewrite (proj2 (Z.ltb_ge _ _)) by lia; reflexivity|].
    split; [apply Hget; rewrite (proj2 (Z.ltb_lt _ _)) by lia; lia|].
    split; [exact (nth_error_In _ _ En)|].
    rewrite (Hnth _ f En).
    replace (0 + Z.of_nat (Z.to_nat i)) with i by lia. reflexivity.
  - apply rows_from_overflow.
  - intros i Hi. unfold FileSet_getitem, FileSet_len. cbv zeta.
    destruct (i <? 0) eqn:Eneg.
    + apply Z.ltb_lt in Eneg.
      destruct Hi as [Hi | Hi]; [|lia].
      rewrite (proj2 (Z.leb_gt 0 _)) by lia. reflexivity.
    + apply Z.ltb_ge in Eneg.
      destruct Hi as [Hi | Hi]; [lia|].
      rewrite (proj2 (Z.ltb_ge i _)) by lia. rewrite andb_false_r.
      reflexivity.
Qed.

(** ** Opening and closing as a round trip *)

Lemma open_each_all (openable : string -> bool) (files : list File) :
  Forall (fun f => openable (path f) = true) files ->
  open_each openable files = (Ok tt, map File_opened files).
Proof.
  induction 1 as [|f files Hf _ IH]; cbn; [reflexivity|].
  unfold File_open. rewrite Hf, IH. reflexivity.
Qed.

Lemma open_each_first_failure (openable : string -> bool)
      (pre : list File) (f : File) (post : list File) :
  Forall (fun g => openable (path g) = true) pre ->
  openable (path f) = false ->
  open_each openable (pre ++ f :: post)
  = (Raise IOError, map File_opened pre ++ f :: post).
Proof.
  intros Hpre Hf. induction Hpre as [|g pre Hg _ IH]; cbn.
  - unfold File_open. rewrite Hf. reflexivity.
  - unfold File_open at 1. rewrite Hg, IH. reflexivity.
Qed.

Lemma close_opened (files : list File) :
  all_closed files -> map File_close (map File_opened files) = files.
Proof.
  induction 1 as [|f files Hf _ IH]; cbn [map]; [reflexivity|].
  rewrite IH. f_equal. destruct f as [p s e h o]. cbn in Hf. subst o.
  reflexivity.
Qed.

(** A [with] statement over a closed file set whose files can all be opened,
    around a body that does not touch the set, runs the body on the set with
    every file open and leaves the set exactly as it was before, whether the
    body returns or raises. *)
Theorem with_fileset_round_trip
        (A : Type) (openable : string -> bool) (fs : FileSet)
        (body : FileSet -> result A) :
  all_closed (_files fs) -> _files_open fs = false ->
  Forall (fun f => openable (path f) = true) (_files fs) ->
  with_fileset openable fs (fun s => (body s, s))
  = (body (FileSet_opened fs), fs)
  /\ all_open (_files (FileSet_opened fs))
  /\ map descr (_files (FileSet_opened fs)) = map descr (_files fs).
Proof.
  intros Hclosed Hflag Hopen. split; [|split].
  - unfold with_fileset, FileSet_enter. rewrite (open_each_all _ _ Hopen).
    fold (FileSet_opened fs). f_equal.
    unfold FileSet_exit, FileSet_opened, with_files. cbn [_files _tree
      _frame_header_bytes _frame_footer_bytes].
    rewrite (close_opened _ Hclosed). destruct fs. cbn in Hflag |- *.
    subst. reflexivity.
  - unfold FileSet_opened, with_files, all_open. cbn [_files].
    rewrite Forall_map. apply Forall_forall. reflexivity.
  - unfold FileSet_opened, with_files. cbn [_files]. rewrite map_map.
    reflexivity.
Qed.

Lemma with_fileset_round_trip_witness :
  with_fileset (fun _ => true) fileset_ab
               (fun s => (@Raise unit IOError, s))
  = (Raise IOError, fileset_ab).
Proof.
  apply (with_fileset_round_trip unit (fun _ => true) fileset_ab
           (fun _ => Raise IOError)).
  - repeat constructor.
  - reflexivity.
  - repeat constructor.
Defined.

(** When a file of the set cannot be opened, [__enter__] raises the I/O
    error of that file; the files before it have been opened and stay open,
    the open flag of the set is not touched, and in a [with] statement
    neither the body nor [__exit__] runs. *)
Theorem FileSet_enter_failure_leaves_open
        (A : Type) (openable : string -> bool) (fs : FileSet)
        (pre : list File) (f : File) (post : list File)
        (body : FileSet -> result A * FileSet) :
  _files fs = pre ++ f :: post ->
  Forall (fun g => openable (path g) = true) pre ->
  openable (path f) = false ->
  FileSet_enter openable fs
  = (Raise IOError,
     with_files fs (map File_opened pre ++ f :: post) (_files_open fs))
  /\ with_fileset openable fs body
     = (Raise IOError,
        with_files fs (map File_opened pre ++ f :: post) (_files_open fs))
  /\ all_open (map File_opened pre).
Proof.
  intros Hfiles Hpre Hf.
  assert (E : FileSet_enter openable fs
              = (Raise IOError,
                 with_files fs (map File_opened pre ++ f :: post)
                            (_files_open fs))).
  { unfold FileSet_enter.
    rewrite Hfiles, (open_each_first_failure _ _ _ _ Hpre Hf). reflexivity. }
  split; [exact E|]. split.
  - unfold with_fileset. rewrite E. reflexivity.
  - unfold all_open. rewrite Forall_map. apply Forall_forall. reflexivity.
Qed.

Lemma FileSet_enter_failure_leaves_open_witness :
  let openable := fun p => negb (String.eqb p "missing.raw") in
  let fs := mkFileSet [file_a; file_b; file_missing]
                      (enumerate_from 0 [file_a; file_b; file_missing])
                      false 0 0 in
  map is_open (_files (snd (with_fileset openable fs failing_body)))
  = [true; true; false].
Proof.
  intros openable fs.
  destruct (FileSet_enter_failure_leaves_open unit openable fs
              [file_a; file_b] file_missing [] failing_body eq_refl)
    as (_ & E & _).
  - repeat constructor.
  - reflexivity.
  - rewrite E. reflexivity.
Defined.

(** ** [get_macrotile] on a two-dimensional signal *)

Lemma get_macrotile_empty_sig2_witness :
  exists t,
    get_macrotile (io := reference_io no_samples)
                  partition_5_10 uint16 all_false_10 = Ok t
    /\ zero_frame_tile_of partition_5_10 t.
Proof.
  apply (get_macrotile_empty_sig2 (io := reference_io no_samples)
           partition_5_10 uint16 all_false_10).
  - reflexivity.
  - discriminate.
  - reflexivity.
Defined.

(** ** [get_base_shape] *)

Lemma flatten_nav_sig (s : Shape) :
  shape_sig (flatten_nav s) = shape_sig s.
Proof.
  unfold flatten_nav, shape_sig at 1, nav_dims_count, sig_dims.
  cbn [shape_dims shape_sig_dims length].
  replace (S (length (shape_sig s)) - length (shape_sig s))%nat with 1%nat by lia.
  reflexivity.
Qed.

Lemma flatten_nav_dims (s : Shape) :
  shape_dims (flatten_nav s) = nav_size s :: shape_sig s.
Proof. reflexivity. Qed.

Lemma base_row_length (rest : list Z) :
  forall x, length (repeat 1 (length rest) ++ [last rest x]) = S (length rest).
Proof.
  intros x. rewrite length_app, repeat_length. cbn. lia.
Qed.

Lemma base_row_prod (n : nat) (x : Z) : prod_Z (repeat 1 n ++ [x]) = x.
Proof.
  induction n as [|n IH]; cbn [repeat app prod_Z fold_right].
  - lia.
  - fold (prod_Z (repeat 1 n ++ [x])). rewrite IH. lia.
Qed.

Lemma last_cons {A : Type} (y : A) (rest : list A) (x : A) :
  last (y :: rest) x = last rest y.
Proof.
  destruct rest as [|z rest]; [reflexivity|].
  change (last (y :: z :: rest) x) with (last (z :: rest) x).
  apply last_nonempty_default.
Qed.

Lemma base_row_fits (rest : list Z) :
  forall x, Forall (fun d => 1 <= d) (x :: rest) ->
            Forall2 Z.le (repeat 1 (length rest) ++ [last rest x]) (x :: rest).
Proof.
  induction rest as [|y rest IH]; intros x H.
  - cbn. constructor; [lia | constructor].
  - inversion H as [|? ? Hx H']; subst.
    rewrite last_cons.
    cbn [length repeat app]. constructor; [exact Hx | exact (IH y H')].
Qed.

(** [get_base_shape] raises [IndexError] on a partition without signal
    axes.  Otherwise it returns a shape with as many axes as the shape of
    the partition: one extent 1 for the navigation axis and for every
    signal axis but the last, followed by the last signal extent, that is
    one row of one frame.  When the extents of the partition shape
    are positive the base shape fits into it, and [adjust_tileshape] returns
    it as it is. *)
Theorem get_base_shape_one_row (p : BasePartition) :
  (shape_sig (shape (slice (base p))) = [] ->
   get_base_shape p = Raise IndexError)
  /\ (shape_sig (shape (slice (base p))) <> [] ->
      exists bs,
        get_base_shape p = Ok bs
        /\ removelast bs
           = repeat 1 (length (shape_sig (shape (slice (base p)))))
        /\ last bs 0 = last (shape_sig (shape (slice (base p)))) 0
        /\ length bs = length (shape_dims (Partition_shape (base p)))
        /\ prod_Z bs = last (shape_sig (shape (slice (base p)))) 0
        /\ adjust_tileshape p bs = bs
        /\ (Forall (fun d => 1 <= d) (shape_dims (Partition_shape (base p))) ->
            Forall2 Z.le bs (shape_dims (Partition_shape (base p))))).
Proof.
  unfold get_base_shape, Partition_shape.
  rewrite flatten_nav_sig, flatten_nav_dims.
  set (sig := shape_sig (shape (slice (base p)))).
  split.
  - intros ->. reflexivity.
  - intros Hne. destruct sig as [|x rest]; [contradiction|].
    eexists. split; [reflexivity|].
    cbn [length]. rewrite Nat.sub_succ, Nat.sub_0_r.
    split; [|split; [|split; [|split; [|split]]]].
    + rewrite removelast_last. reflexivity.
    + rewrite last_last, last_cons. reflexivity.
    + cbn [app length]. rewrite base_row_length. reflexivity.
    + cbn [app prod_Z fold_right].
      fold (prod_Z (repeat 1 (length rest) ++ [last rest x])).
      rewrite base_row_prod.
      rewrite last_cons. lia.
    + reflexivity.
    + intros Hpos. inversion Hpos as [|? ? Hnav Hsig]; subst.
      cbn [app]. constructor; [exact Hnav|].
      apply base_row_fits. exact Hsig.
Qed.

(** ** [PickUDF.process_tile] and [merge] *)

Lemma set_nth_length (l : list Z) :
  forall n v, length (set_nth n v l) = length l.
Proof.
  induction l as [|x l IH]; intros [|n] v; cbn; try reflexivity.
  rewrite IH. reflexivity.
Qed.

Lemma nth_set_nth (l : list Z) :
  forall n v i, (i < length l)%nat ->
                nth i (set_nth n v l) 0 = if Nat.eqb n i then v else nth i l 0.
Proof.
  induction l as [|x l IH]; intros n v i Hi; cbn in Hi; [lia|].
  destruct n as [|n], i as [|i]; cbn; try reflexivity.
  apply IH. lia.
Qed.

Lemma write_all_length (d : dtype) (pvs : list (nat * Z)) :
  forall data, length (write_all d pvs data) = length data.
Proof.
  induction pvs as [|pv pvs IH]; intros data; [reflexivity|].
  unfold write_all. cbn [fold_left].
  fold (write_all d pvs (set_nth (fst pv) (wrap d (snd pv)) data)).
  rewrite IH. apply set_nth_length.
Qed.

(** After the assignments, a position holds the last value written to it,
    and what it held before when none was. *)
Lemma nth_write_all (d : dtype) (pvs : list (nat * Z)) :
  forall data i,
    (i < length data)%nat ->
    nth i (write_all d pvs data) 0
    = match written d pvs i with
      | Some w => w
      | None => nth i data 0
      end.
Proof.
  induction pvs as [|pv pvs IH]; intros data i Hi; [reflexivity|].
  unfold write_all. cbn [fold_left].
  fold (write_all d pvs (set_nth (fst pv) (wrap d (snd pv)) data)).
  rewrite IH by (rewrite set_nth_length; exact Hi).
  cbn [written]. destruct (written d pvs i); [reflexivity|].
  rewrite nth_set_nth by exact Hi.
  destruct (Nat.eqb (fst pv) i); reflexivity.
Qed.

Lemma written_some (d : dtype) (pvs : list (nat * Z)) (i : nat) (w : Z) :
  written d pvs i = Some w ->
  In i (map fst pvs) /\ exists v, w = wrap d v.
Proof.
  induction pvs as [|pv pvs IH]; cbn; [discriminate|].
  destruct (written d pvs i) as [w'|].
  - intros [= <-]. destruct (IH eq_refl) as [Hin Hv]. split; [right; exact Hin | exact Hv].
  - destruct (Nat.eqb (fst pv) i) eqn:E; [|discriminate].
    intros [= <-]. apply Nat.eqb_eq in E.
    split; [left; exact E | eexists; reflexivity].
Qed.

Lemma written_none (d : dtype) (pvs : list (nat * Z)) (i : nat) :
  ~ In i (map fst pvs) -> written d pvs i = None.
Proof.
  intros Hnot. destruct (written d pvs i) as [w|] eqn:E; [|reflexivity].
  apply written_some in E. tauto.
Qed.

Lemma modulus_pos (d : dtype) : 0 <= itemsize d -> 0 < modulus d.
Proof. intros H. unfold modulus. apply Z.pow_pos_nonneg; lia. Qed.

Lemma wrap_is_representable (d : dtype) (x : Z) :
  0 <= itemsize d -> representable d (wrap d x).
Proof.
  intros H. pose proof (modulus_pos d H) as Hm.
  unfold representable, wrap. destruct (dtype_signed d).
  - pose proof (Z.mod_pos_bound (x + modulus d / 2) (modulus d) Hm). lia.
  - apply Z.mod_pos_bound. exact Hm.
Qed.

Lemma zero_representable (d : dtype) : 0 <= itemsize d -> representable d 0.
Proof.
  intros H. pose proof (modulus_pos d H) as Hm.
  assert (0 <= modulus d / 2 < modulus d).
  { split; [apply Z.div_pos; lia | apply Z.div_lt_upper_bound; lia]. }
  unfold representable. destruct (dtype_signed d); lia.
Qed.

Lemma nth_add_elementwise (d : dtype) (xs : list Z) :
  forall ys i,
    length xs = length ys -> (i < length xs)%nat ->
    nth i (add_elementwise d xs ys) 0 = wrap d (nth i xs 0 + nth i ys 0).
Proof.
  induction xs as [|x xs IH]; intros [|y ys] i Hlen Hi; cbn in *;
    try lia; try discriminate.
  destruct i as [|i]; [reflexivity|]. apply IH; lia.
Qed.

(** Two runs of assignments to a zero buffer that touch different positions
    add up to the two runs done one after the other. *)
Lemma add_written_disjoint (d : dtype) (pv1 pv2 : list (nat * Z)) (n : nat) :
  0 <= itemsize d ->
  (forall i, In i (map fst pv1) -> In i (map fst pv2) -> False) ->
  add_elementwise d (write_all d pv1 (repeat 0 n)) (write_all d pv2 (repeat 0 n))
  = write_all d pv2 (write_all d pv1 (repeat 0 n)).
Proof.
  intros Hd Hdis.
  assert (Hlen : forall pv, length (write_all d pv (repeat 0 n)) = n).
  { intros pv. rewrite write_all_length. apply repeat_length. }
  apply (nth_ext _ _ 0 0).
  - rewrite add_elementwise_length by (rewrite !Hlen; reflexivity).
    rewrite !write_all_length. reflexivity.
  - intros i Hi.
    rewrite add_elementwise_length in Hi by (rewrite !Hlen; reflexivity).
    rewrite Hlen in Hi.
    rewrite nth_add_elementwise by (rewrite !Hlen; (reflexivity || exact Hi)).
    rewrite (nth_write_all d pv2 (write_all d pv1 (repeat 0 n)))
      by (rewrite Hlen; exact Hi).
    rewrite !(nth_write_all d _ (repeat 0 n)) by (rewrite repeat_length; exact Hi).
    rewrite nth_repeat.
    destruct (written d pv2 i) as [w2|] eqn:E2.
    + destruct (written_some _ _ _ _ E2) as [Hin2 [v ->]].
      rewrite written_none by (intros Hin1; exact (Hdis i Hin1 Hin2)).
      rewrite Z.add_0_l. apply wrap_representable, wrap_is_representable, Hd.
    + rewrite Z.add_0_r. apply wrap_representable.
      destruct (written d pv1 i) as [w1|] eqn:E1.
      * destruct (written_some _ _ _ _ E1) as [_ [v ->]].
        apply wrap_is_representable, Hd.
      * apply zero_representable, Hd.
Qed.

(** *** Where a slice lies in the flat buffer *)

Lemma flat_fold_acc (l : list (Z * Z)) :
  forall acc,
    fold_left (fun a di => a * fst di + snd di) l acc
    = acc * prod_Z (map fst l)
      + fold_left (fun a di => a * fst di + snd di) l 0.
Proof.
  induction l as [|[d i] l IH]; intros acc; cbn [fold_left map prod_Z fold_right fst snd].
  - lia.
  - fold (prod_Z (map fst l)). rewrite (IH (acc * d + i)), (IH (0 * d + i)). lia.
Qed.

Lemma flat_index_cons (d : Z) (dims : list Z) (i : Z) (idx : list Z) :
  length dims = length idx ->
  flat_index (d :: dims) (i :: idx) = i * prod_Z dims + flat_index dims idx.
Proof.
  intros Hlen. unfold flat_index. cbn [combine fold_left fst snd].
  rewrite flat_fold_acc.
  replace (map fst (combine dims idx)) with dims; [lia|].
  clear - Hlen. revert idx Hlen.
  induction dims as [|x dims IH]; intros [|y idx] H; cbn in *; try discriminate;
    [reflexivity|].
  rewrite <- IH by lia. reflexivity.
Qed.

Lemma flat_index_bounds (dims idx : list Z) :
  Forall2 (fun d i => 0 <= i < d) dims idx ->
  0 <= flat_index dims idx < prod_Z dims.
Proof.
  induction 1 as [|d i dims idx Hi Hrest IH].
  - cbn. lia.
  - rewrite flat_index_cons by (eapply Forall2_length; exact Hrest).
    cbn [prod_Z fold_right]. fold (prod_Z dims). nia.
Qed.

Lemma box_indices_in_bounds (dims : list Z) :
  forall origin extents idx,
    in_bounds dims origin extents = true ->
    In idx (box_indices origin extents) ->
    Forall2 (fun d i => 0 <= i < d) dims idx.
Proof.
  induction dims as [|d dims IH]; intros [|o origin] [|e extents] idx Hb Hin;
    cbn in Hb; try discriminate.
  - cbn in Hin. destruct Hin as [<- | []]. constructor.
  - cbn [box_indices] in Hin. apply in_flat_map in Hin.
    destruct Hin as (i & Hi & Hin). apply in_map_iff in Hin.
    destruct Hin as (idx' & <- & Hin'). apply in_seq in Hi.
    repeat (apply andb_true_iff in Hb; destruct Hb as [Hb ?]).
    apply Z.leb_le in Hb. apply Z.leb_le in H0. apply Z.leb_le in H1.
    constructor; [lia|]. exact (IH _ _ _ H Hin').
Qed.

(** The flat positions of a slice within the bounds of the buffer lie in the
    rows of its navigation range. *)
Lemma box_positions_rows (d : Z) (dims : list Z) (sl : Slice) (p : nat) :
  in_bounds (d :: dims) (origin sl) (shape_dims (shape sl)) = true ->
  In p (box_positions (d :: dims) sl) ->
  exists o e rest_o rest_e,
    origin sl = o :: rest_o /\ shape_dims (shape sl) = e :: rest_e
    /\ 0 < prod_Z dims
    /\ o * prod_Z dims <= Z.of_nat p < (o + e) * prod_Z dims.
Proof.
  intros Hb Hin. unfold box_positions in Hin. apply in_map_iff in Hin.
  destruct Hin as (idx & <- & Hidx).
  pose proof (box_indices_in_bounds _ _ _ _ Hb Hidx) as Hrange.
  destruct (origin sl) as [|o rest_o]; [discriminate|].
  destruct (shape_dims (shape sl)) as [|e rest_e]; [discriminate|].
  exists o, e, rest_o, rest_e. split; [reflexivity|]. split; [reflexivity|].
  cbn [box_indices] in Hidx. apply in_flat_map in Hidx.
  destruct Hidx as (i & Hi & Hidx). apply in_map_iff in Hidx.
  destruct Hidx as (idx' & <- & Hidx'). apply in_seq in Hi.
  inversion Hrange as [|? ? ? ? H0 Hrest]; subst.
  pose proof (flat_index_bounds _ _ Hrest) as Hf.
  pose proof (flat_index_bounds _ _ Hrange) as Hf0.
  rewrite flat_index_cons in Hf0 |- * by (eapply Forall2_length; exact Hrest).
  split; [lia|]. rewrite Z2Nat.id by lia. nia.
Qed.

Lemma box_positions_disjoint (dims : list Z) (s1 s2 : Slice) (p : nat) :
  in_bounds dims (origin s1) (shape_dims (shape s1)) = true ->
  in_bounds dims (origin s2) (shape_dims (shape s2)) = true ->
  nav_disjoint s1 s2 ->
  In p (box_positions dims s1) -> In p (box_positions dims s2) -> False.
Proof.
  intros Hb1 Hb2 Hdis H1 H2.
  destruct dims as [|d dims].
  { unfold nav_disjoint in Hdis.
    destruct (origin s1); [contradiction|]. discriminate. }
  destruct (box_positions_rows _ _ _ _ Hb1 H1)
    as (o1 & e1 & r1 & r1' & Ho1 & He1 & HP & Hp1).
  destruct (box_positions_rows _ _ _ _ Hb2 H2)
    as (o2 & e2 & r2 & r2' & Ho2 & He2 & _ & Hp2).
  unfold nav_disjoint in Hdis. rewrite Ho1, He1, Ho2, He2 in Hdis.
  destruct Hdis; nia.
Qed.

(** *** The positions of a slice are distinct *)

Lemma box_indices_NoDup (origin : list Z) :
  forall extents, NoDup (box_indices origin extents).
Proof.
  induction origin as [|o origin IH]; intros extents.
  - cbn. constructor; [intros [] | constructor].
  - destruct extents as [|e extents].
    + cbn. constructor; [intros [] | constructor].
    + cbn [box_indices]. specialize (IH extents).
      generalize (seq_NoDup (Z.to_nat e) 0).
      generalize (seq 0 (Z.to_nat e)) as l.
      induction l as [|i l IHl]; intros Hl; cbn [flat_map]; [constructor|].
      inversion Hl as [|? ? Hi Hl']; subst.
      apply NoDup_app.
      * apply NoDup_map_NoDup_ForallPairs; [|exact IH].
        intros x y _ _ [= ->]. reflexivity.
      * exact (IHl Hl').
      * intros a Ha Hb. apply in_map_iff in Ha. destruct Ha as (x & <- & _).
        apply in_flat_map in Hb. destruct Hb as (j & Hj & Hb).
        apply in_map_iff in Hb. destruct Hb as (y & Heq & _).
        injection Heq as Hij _.
        assert (j = i) by lia. subst j. contradiction.
Qed.

Lemma flat_index_inj (dims : list Z) :
  forall idx1 idx2,
    Forall2 (fun d i => 0 <= i < d) dims idx1 ->
    Forall2 (fun d i => 0 <= i < d) dims idx2 ->
    flat_index dims idx1 = flat_index dims idx2 -> idx1 = idx2.
Proof.
  induction dims as [|d dims IH]; intros idx1 idx2 H1 H2 Heq.
  - inversion H1; inversion H2; reflexivity.
  - inversion H1 as [|? i1 ? r1 Hi1 Hr1]; subst.
    inversion H2 as [|? i2 ? r2 Hi2 Hr2]; subst.
    rewrite !flat_index_cons in Heq by (eapply Forall2_length; eassumption).
    pose proof (flat_index_bounds _ _ Hr1) as Hb1.
    pose proof (flat_index_bounds _ _ Hr2) as Hb2.
    destruct (Z.div_mod_unique (prod_Z dims) i1 i2
                (flat_index dims r1) (flat_index dims r2)) as [-> Hf];
      [left; exact Hb1 | left; exact Hb2 | lia |].
    f_equal. exact (IH _ _ Hr1 Hr2 Hf).
Qed.

Lemma box_positions_NoDup (dims : list Z) (sl : Slice) :
  in_bounds dims (origin sl) (shape_dims (shape sl)) = true ->
  NoDup (box_positions dims sl).
Proof.
  intros Hb. unfold box_positions.
  apply NoDup_map_NoDup_ForallPairs; [|apply box_indices_NoDup].
  intros x y Hx Hy Heq.
  pose proof (box_indices_in_bounds _ _ _ _ Hb Hx) as Rx.
  pose proof (box_indices_in_bounds _ _ _ _ Hb Hy) as Ry.
  pose proof (flat_index_bounds _ _ Rx). pose proof (flat_index_bounds _ _ Ry).
  apply (flat_index_inj dims); try assumption.
  apply Z2Nat.inj; lia.
Qed.

Lemma box_positions_in_range (dims : list Z) (sl : Slice) (p : nat) :
  in_bounds dims (origin sl) (shape_dims (shape sl)) = true ->
  In p (box_positions dims sl) -> (p < Z.to_nat (prod_Z dims))%nat.
Proof.
  intros Hb Hin. unfold box_positions in Hin. apply in_map_iff in Hin.
  destruct Hin as (idx & <- & Hidx).
  pose proof (flat_index_bounds _ _ (box_indices_in_bounds _ _ _ _ Hb Hidx)).
  lia.
Qed.

Lemma combine_fst_NoDup {A B : Type} (l : list A) :
  forall (l' : list B), NoDup l -> NoDup (map fst (combine l l')).
Proof.
  induction l as [|x l IH]; intros [|y l'] H; cbn; try constructor.
  - inversion H as [|? ? Hx _]; subst. intros Hin. apply Hx.
    apply in_map_iff in Hin. destruct Hin as ([a b] & <- & Hab).
    exact (in_combine_l _ _ _ _ Hab).
  - inversion H; subst. apply IH. assumption.
Qed.

Lemma combine_fst_incl {A B : Type} (l : list A) (l' : list B) (x : A) :
  In x (map fst (combine l l')) -> In x l.
Proof.
  intros Hin. apply in_map_iff in Hin. destruct Hin as ([a b] & <- & Hab).
  exact (in_combine_l _ _ _ _ Hab).
Qed.

Lemma written_NoDup (d : dtype) (pvs : list (nat * Z)) (p : nat) (v : Z) :
  NoDup (map fst pvs) -> In (p, v) pvs -> written d pvs p = Some (wrap d v).
Proof.
  induction pvs as [|pv pvs IH]; intros Hnd Hin; [contradiction|].
  cbn [map] in Hnd. inversion Hnd as [|? ? Hfresh Hnd']; subst.
  cbn [written]. destruct Hin as [-> | Hin].
  - cbn [fst snd] in *. rewrite written_none by exact Hfresh.
    rewrite Nat.eqb_refl. reflexivity.
  - rewrite (IH Hnd' Hin). reflexivity.
Qed.

Lemma add_elementwise_comm (d : dtype) (xs : list Z) :
  forall ys, add_elementwise d xs ys = add_elementwise d ys xs.
Proof.
  induction xs as [|x xs IH]; intros [|y ys]; cbn; try reflexivity.
  rewrite Z.add_comm, IH. reflexivity.
Qed.

(** [process_tile] stores the tile in the buffer: the buffer keeps its
    shape, element type and length; the k-th element of the tile, converted
    to the element type of the buffer, lands at the k-th position of the
    slice; every element outside the slice keeps its value; and processing
    the same tile again changes nothing. *)
Theorem process_tile_stores_tile
        (sl : Slice) (results : PickResults) (tile : ndarray) (r : PickResults) :
  length (arr_data (intensity results))
  = Z.to_nat (prod_Z (arr_shape (intensity results))) ->
  process_tile sl results tile = Some r ->
  arr_shape (intensity r) = arr_shape (intensity results)
  /\ arr_dtype (intensity r) = arr_dtype (intensity results)
  /\ length (arr_data (intensity r)) = length (arr_data (intensity results))
  /\ (forall p v,
         In (p, v) (combine (box_positions (arr_shape (intensity results)) sl)
                            (arr_data tile)) ->
         nth p (arr_data (intensity r)) 0
         = wrap (arr_dtype (intensity results)) v)
  /\ (forall i,
         ~ In i (box_positions (arr_shape (intensity results)) sl) ->
         nth i (arr_data (intensity r)) 0
         = nth i (arr_data (intensity results)) 0)
  /\ process_tile sl r tile = Some r.
Proof.
  intros Hlen Hrun. unfold process_tile, setitem_slice in *.
  destruct results as [[d dims data]]. cbn [intensity arr_shape arr_dtype arr_data] in *.
  destruct (in_bounds dims (origin sl) (shape_dims (shape sl))) eqn:Hb;
    [|discriminate].
  destruct (list_Z_eqb (arr_shape tile) (shape_dims (shape sl))) eqn:Hs;
    [|discriminate].
  cbn [andb option_map] in Hrun. injection Hrun as <-.
  cbn [intensity arr_shape arr_dtype arr_data]. rewrite ?Hb, ?Hs.
  cbn [andb option_map].
  set (pvs := combine (box_positions dims sl) (arr_data tile)).
  assert (Hnd : NoDup (map fst pvs))
    by (apply combine_fst_NoDup, box_positions_NoDup, Hb).
  split; [reflexivity|]. split; [reflexivity|].
  split; [apply write_all_length|]. split; [|split].
  - intros p v Hin.
    assert (Hp : (p < length data)%nat).
    { rewrite Hlen. apply (box_positions_in_range dims sl); [exact Hb|].
      exact (in_combine_l _ _ _ _ Hin). }
    rewrite nth_write_all by exact Hp.
    rewrite (written_NoDup _ _ _ _ Hnd Hin). reflexivity.
  - intros i Hi.
    destruct (Nat.lt_ge_cases i (length data)) as [Hlt | Hge].
    + rewrite nth_write_all by exact Hlt.
      rewrite written_none; [reflexivity|].
      intros Hin. apply Hi. exact (combine_fst_incl _ _ _ Hin).
    + rewrite !nth_overflow; [reflexivity | exact Hge |].
      rewrite write_all_length. exact Hge.
  - do 3 f_equal. apply (nth_ext _ _ 0 0); [rewrite !write_all_length; reflexivity|].
    intros i Hi. rewrite !write_all_length in Hi.
    rewrite (nth_write_all _ _ (write_all _ _ _))
      by (rewrite write_all_length; exact Hi).
    rewrite (nth_write_all _ _ data) by exact Hi.
    destruct (written d pvs i); reflexivity.
Qed.

Lemma inplace_add_allowed_refl (d : dtype) : inplace_add_allowed d d = true.
Proof. unfold inplace_add_allowed. destruct (dtype_signed d); reflexivity. Qed.

(** The reduction of [PickUDF]: two tiles with disjoint navigation ranges,
    each processed into its own zero-filled buffer, merge (in either order)
    into the buffer that results from processing both tiles into one. *)
Theorem merge_of_disjoint_tiles
        (d : dtype) (dims : list Z) (s1 s2 : Slice) (t1 t2 : ndarray)
        (A B : PickResults) :
  0 <= itemsize d ->
  process_tile s1 (mkPickResults (np_zeros dims d)) t1 = Some A ->
  process_tile s2 (mkPickResults (np_zeros dims d)) t2 = Some B ->
  nav_disjoint s1 s2 ->
  exists C,
    process_tile s2 A t2 = Some C
    /\ merge A B = Some (Ok C)
    /\ merge B A = Some (Ok C).
Proof.
  intros Hd HA HB Hdis. unfold process_tile, setitem_slice, np_zeros in *.
  cbn [intensity arr_shape arr_dtype arr_data] in *.
  destruct (in_bounds dims (origin s1) (shape_dims (shape s1))) eqn:Hb1;
    [|discriminate].
  destruct (list_Z_eqb (arr_shape t1) (shape_dims (shape s1))); [|discriminate].
  destruct (in_bounds dims (origin s2) (shape_dims (shape s2))) eqn:Hb2;
    [|discriminate].
  destruct (list_Z_eqb (arr_shape t2) (shape_dims (shape s2))) eqn:Hs2;
    [|discriminate].
  cbn [andb option_map] in HA, HB. injection HA as <-. injection HB as <-.
  cbn [intensity arr_shape arr_dtype arr_data]. rewrite ?Hb2, ?Hs2.
  cbn [andb option_map].
  eexists. split; [reflexivity|].
  unfold merge, iadd_all. cbn [intensity arr_shape arr_dtype arr_data].
  rewrite (proj2 (list_Z_eqb_eq dims dims) eq_refl), inplace_add_allowed_refl.
  assert (E : add_elementwise d
                (write_all d (combine (box_positions dims s1) (arr_data t1))
                           (repeat 0 (Z.to_nat (prod_Z dims))))
                (write_all d (combine (box_positions dims s2) (arr_data t2))
                           (repeat 0 (Z.to_nat (prod_Z dims))))
              = write_all d (combine (box_positions dims s2) (arr_data t2))
                  (write_all d (combine (box_positions dims s1) (arr_data t1))
                             (repeat 0 (Z.to_nat (prod_Z dims))))).
  { apply add_written_disjoint; [exact Hd|].
    intros i H1 H2.
    apply (box_positions_disjoint dims s1 s2 i Hb1 Hb2 Hdis);
      eapply combine_fst_incl; eassumption. }
  split.
  - rewrite E. reflexivity.
  - rewrite add_elementwise_comm, E. reflexivity.
Qed.

Lemma process_tile_stores_tile_witness :
  exists r,
    process_tile slice_2_4 zero_buffer_4 tile_2_4 = Some r
    /\ arr_data (intensity r)
       = [0; 0; 0; 0; 0; 0; 0; 0; 11; 12; 13; 14; 15; 16; 17; 18]
    /\ process_tile slice_2_4 r tile_2_4 = Some r.
Proof.
  eexists. split; [reflexivity|]. split; [reflexivity|].
  apply (process_tile_stores_tile slice_2_4 zero_buffer_4 tile_2_4 _
           eq_refl eq_refl).
Defined.

Lemma merge_of_disjoint_tiles_witness :
  exists A B C,
    process_tile slice_0_2 zero_buffer_4 tile_0_2 = Some A
    /\ process_tile slice_2_4 zero_buffer_4 tile_2_4 = Some B
    /\ process_tile slice_2_4 A tile_2_4 = Some C
    /\ merge A B = Some (Ok C)
    /\ arr_data (intensity C)
       = [1; 2; 3; 4; 5; 6; 7; 8; 11; 12; 13; 14; 15; 16; 17; 18].
Proof.
  destruct (merge_of_disjoint_tiles uint16 [4; 2; 2] slice_0_2 slice_2_4
              tile_0_2 tile_2_4 _ _ ltac:(cbn; lia) eq_refl eq_refl)
    as (C & HC & Hm & _).
  - left. reflexivity.
  - do 3 eexists. split; [reflexivity|]. split; [reflexivity|].
    split; [exact HC|]. split; [exact Hm|].
    cbv in HC. injection HC as <-. reflexivity.
Defined.

(** ** The order of merges *)

Lemma wrap_add_l (d : dtype) (x y : Z) :
  0 <= itemsize d -> wrap d (wrap d x + y) = wrap d (x + y).
Proof.
  intros H. pose proof (modulus_pos d H) as Hm. unfold wrap.
  destruct (dtype_signed d).
  - f_equal.
    replace ((x + modulus d / 2) mod modulus d - modulus d / 2 + y + modulus d / 2)
      with ((x + modulus d / 2) mod modulus d + y) by lia.
    rewrite Zplus_mod_idemp_l. f_equal. lia.
  - apply Zplus_mod_idemp_l.
Qed.

Lemma add_elementwise_swap (d : dtype) (xs : list Z) :
  0 <= itemsize d ->
  forall ys zs,
    add_elementwise d (add_elementwise d xs ys) zs
    = add_elementwise d (add_elementwise d xs zs) ys.
Proof.
  intros H. induction xs as [|x xs IH]; intros [|y ys] [|z zs]; cbn;
    try reflexivity.
  rewrite !wrap_add_l by exact H. rewrite IH.
  do 2 f_equal. lia.
Qed.

(** The buffers of two workers can be merged into the running result in
    either order: when the element types of [b] and [c] can be added into
    that of [a], merging [b] and then [c] into [a] gives what merging [c]
    and then [b] gives; when one of them cannot, both orders raise the type
    error. *)
Theorem merge_order_independent (a b c : PickResults) :
  0 <= itemsize (arr_dtype (intensity a)) ->
  arr_shape (intensity b) = arr_shape (intensity a) ->
  arr_shape (intensity c) = arr_shape (intensity a) ->
  (inplace_add_allowed (arr_dtype (intensity a)) (arr_dtype (intensity b)) = true ->
   inplace_add_allowed (arr_dtype (intensity a)) (arr_dtype (intensity c)) = true ->
   exists r,
     merge_into (merge a b) c = Some (Ok r)
     /\ merge_into (merge a c) b = Some (Ok r))
  /\ (inplace_add_allowed (arr_dtype (intensity a)) (arr_dtype (intensity b)) = false
      \/ inplace_add_allowed (arr_dtype (intensity a)) (arr_dtype (intensity c)) = false ->
      merge_into (merge a b) c = Some (Raise UFuncTypeError)
      /\ merge_into (merge a c) b = Some (Raise UFuncTypeError)).
Proof.
  intros Hd Hb Hc. destruct a as [[da sa xs]], b as [[db sb ys]], c as [[dc sc zs]].
  cbn [intensity arr_shape arr_dtype] in *. subst sb sc.
  unfold merge, iadd_all. cbn [intensity arr_shape arr_dtype arr_data].
  rewrite (proj2 (list_Z_eqb_eq sa sa) eq_refl).
  split.
  - intros Eb Ec. rewrite Eb, Ec. cbn [merge_into]. unfold merge, iadd_all.
    cbn [intensity arr_shape arr_dtype arr_data].
    rewrite (proj2 (list_Z_eqb_eq sa sa) eq_refl), Eb, Ec.
    eexists. split; [reflexivity|].
    rewrite (add_elementwise_swap da xs Hd zs ys). reflexivity.
  - intros E.
    destruct (inplace_add_allowed da db) eqn:Eb,
             (inplace_add_allowed da dc) eqn:Ec;
      cbn [merge_into]; unfold merge, iadd_all;
      cbn [intensity arr_shape arr_dtype arr_data];
      rewrite ?(proj2 (list_Z_eqb_eq sa sa) eq_refl), ?Eb, ?Ec;
      try (split; reflexivity).
    destruct E; discriminate.
Qed.

Lemma merge_order_independent_witness :
  exists r,
    merge_into (merge dest_buffer zero_buffer) dest_buffer = Some (Ok r)
    /\ merge_into (merge dest_buffer dest_buffer) zero_buffer = Some (Ok r).
Proof.
  destruct (merge_order_independent dest_buffer zero_buffer dest_buffer)
    as (H & _).
  - cbn. lia.
  - reflexivity.
  - reflexivity.
  - apply H; reflexivity.
Defined.

(** ** The frames of the ranges add up *)

Lemma tiles_from_total (rs : list (Z * Z)) :
  forall lo hi, tiles_from lo hi rs -> total_frames rs = hi - lo.
Proof.
  induction rs as [|[a b] rs IH]; cbn; intros lo hi H.
  - lia.
  - destruct H as (-> & _ & Hrest). fold (total_frames rs).
    rewrite (IH _ _ Hrest). lia.
Qed.

(** The frame counts [stop - start] that [make_slices] hands to the
    partitions add up to the number of frames of the dataset, and each of
    them is at least one. *)
Theorem make_slices_frames_add_up (sh : Shape) (k : Z) :
  k <> 0 -> 0 <= nav_size sh ->
  exists l,
    make_slices sh k = Some (Ok l)
    /\ total_frames (ranges l) = nav_size sh
    /\ Forall (fun it => 1 <= item_stop it - item_start it) l.
Proof.
  intros Hk Hn. destruct (make_slices_ok sh k Hk Hn) as (l & Hrun & Ht & _).
  exists l. split; [exact Hrun|].
  split; [rewrite (tiles_from_total _ _ _ Ht); lia|].
  apply Forall_forall. intros it Hit.
  assert (Hr : In (item_start it, item_stop it) (ranges l)).
  { unfold ranges. apply in_map_iff. exists it. split; [reflexivity | exact Hit]. }
  destruct (tiles_from_bounds _ _ _ Ht _ Hr) as (_ & Hlt & _).
  cbn [fst snd] in Hlt. lia.
Qed.

Lemma make_slices_frames_add_up_witness :
  exists l, make_slices shape_10_2_2 3 = Some (Ok l)
            /\ total_frames (ranges l) = 10.
Proof.
  destruct (make_slices_frames_add_up shape_10_2_2 3) as (l & Hrun & Hsum & _).
  - discriminate.
  - vm_compute. discriminate.
  - exists l. split; [exact Hrun | exact Hsum].
Defined.

Lemma get_base_shape_one_row_witness :
  exists bs, get_base_shape partition_5_10 = Ok bs /\ bs = [1; 1; 2].
Proof.
  destruct (get_base_shape_one_row partition_5_10) as (_ & H).
  destruct H as (bs & E & _); [discriminate|].
  exists bs. split; [exact E|].
  cbv in E. injection E as <-. reflexivity.
Defined.

Lemma get_as_arr_rows_witness :
  exists rows f,
    get_as_arr fileset_ab = Ok rows
    /\ FileSet_getitem fileset_ab 1 = Ok f
    /\ FileSet_getitem fileset_ab (-1) = Ok f
    /\ nth_error rows 1 = Some (5, 10, 1, 0).
Proof.
  destruct (get_as_arr_rows fileset_ab) as (H & _ & _).
  destruct H as (rows & E & _ & Hrow).
  - repeat constructor.
  - cbn. lia.
  - destruct (Hrow 1) as (f & E1 & E2 & _ & Erow); [cbn; lia|].
    exists rows, f. split; [exact E|]. split; [exact E1|]. split; [exact E2|].
    cbv in E1. injection E1 as <-. exact Erow.
Defined.
